(** * Lounge: the AWS proxy route and the PaLM key serializer

    A shallow embedding of [src/proxy/aws.ts] and
    [src/shared/key-management/palm/serializer.ts].

    JavaScript values are a small JSON-like inductive type, objects are
    finite maps from property names to values, a function that can throw
    returns in an error monad, and the regular expression of
    [maybeReassignModel] is run by a backtracking matcher that follows the
    ECMAScript matching order. *)

From Stdlib Require Import ZArith Ascii String List Bool Lia.
From stdpp Require Import base option gmap strings list fin_maps.

Local Open Scope string_scope.
Local Open Scope Z_scope.

(** ** Exceptions *)

Module Js.

Inductive error : Type :=
| TypeError
| Error (msg : string).

Inductive result (A : Type) : Type :=
| Ok (a : A)
| Throw (e : error).
Global Arguments Ok {A} a.
Global Arguments Throw {A} e.

#[global] Instance result_ret : MRet result := fun A a => Ok a.

#[global] Instance result_bind : MBind result := fun A B f r =>
  match r with
  | Ok a => f a
  | Throw e => Throw e
  end.

#[global] Instance result_fmap : FMap result := fun A B f r =>
  match r with
  | Ok a => Ok (f a)
  | Throw e => Throw e
  end.

End Js.

Export Js.

(** ** Strings

    A JavaScript string is kept as the list of its UTF-8 bytes.  Every
    literal and every character class of the code is ASCII, and a byte of a
    multi-byte character is never an ASCII byte, so substring search and the
    anchored pattern give the same answers on bytes as on UTF-16 units. *)

Module Str.

Fixpoint startsWith (s p : string) : bool :=
  match p, s with
  | EmptyString, _ => true
  | String c p', String a s' => Ascii.eqb a c && startsWith s' p'
  | String _ _, EmptyString => false
  end.

(** [String.prototype.includes]: is [p] a contiguous part of [s]? *)
Fixpoint includes (s p : string) : bool :=
  startsWith s p ||
  match s with
  | EmptyString => false
  | String _ s' => includes s' p
  end.

(** [s.slice(0, n)] for [0 <= n]. *)
Fixpoint take (n : nat) (s : string) : string :=
  match n, s with
  | S n', String a s' => String a (take n' s')
  | _, _ => EmptyString
  end.

Definition is_digit (a : ascii) : bool :=
  let n := N_of_ascii a in (48 <=? n)%N && (n <=? 57)%N.

Definition is_lower (a : ascii) : bool :=
  let n := N_of_ascii a in (97 <=? n)%N && (n <=? 122)%N.

(** Canonicalize of the /i flag without /u: a code unit is replaced by its
    upper case, except that a non-ASCII unit never becomes an ASCII one.
    On bytes only a-z change. *)
Definition canonicalize (a : ascii) : ascii :=
  if is_lower a then ascii_of_N (N_of_ascii a - 32) else a.

(** Two characters that the i flag identifies. *)
Definition ceq (a c : ascii) : bool :=
  Ascii.eqb (canonicalize a) (canonicalize c).

End Str.

(** ** Regular expressions

    The fragment of the ECMAScript pattern language that the source uses,
    with the backtracking order of the language: a quantifier is greedy, an
    alternative is tried left to right, and the first complete match wins. *)

Module Regex.

Inductive t : Type :=
| Eps                      (* the empty pattern *)
| Chr (c : ascii)          (* a literal character, compared under /i *)
| Digit                    (* \d *)
| Seq (r1 r2 : t)
| Alt (r1 r2 : t)
| Opt (r : t)              (* r? *)
| Star (r : t)             (* r* *)
| Group (i : nat) (r : t). (* the i-th pair of parentheses *)

Definition Plus (r : t) : t := Seq r (Star r).

Fixpoint lit (s : string) : t :=
  match s with
  | EmptyString => Eps
  | String c EmptyString => Chr c
  | String c s' => Seq (Chr c) (lit s')
  end.

(** The captures: position [i] holds the text of group [i], [None] while
    the group has taken no part in the match ([undefined] in the result
    array). *)
Definition captures := list (option string).

Definition cont := string → captures → option captures.

Definition consumed (s s' : string) : string :=
  Str.take (String.length s - String.length s') s.

(** The groups inside a pattern; a quantifier clears them when it starts
    an iteration. *)
Fixpoint groups (r : t) : list nat :=
  match r with
  | Eps | Chr _ | Digit => []
  | Seq r1 r2 | Alt r1 r2 => groups r1 ++ groups r2
  | Opt r1 | Star r1 => groups r1
  | Group i r1 => i :: groups r1
  end.

Definition clear (gs : list nat) (caps : captures) : captures :=
  foldr (fun i c => <[i := None]> c) caps gs.

(** [run r s caps k]: match [r] at the front of [s] and hand the rest of
    the input and the captures to the continuation [k]; when [k] fails the
    matcher backtracks into [r].  The quantifiers follow RepeatMatcher: the
    iteration is tried before the exit, it starts from cleared inner
    captures, and an iteration that consumes nothing is rejected. *)
Fixpoint run (r : t) (s : string) (caps : captures) (k : cont)
  : option captures :=
  match r with
  | Eps => k s caps
  | Chr c =>
      match s with
      | String a s' =>
          if Str.ceq a c then k s' caps else None
      | EmptyString => None
      end
  | Digit =>
      match s with
      | String a s' => if Str.is_digit a then k s' caps else None
      | EmptyString => None
      end
  | Seq r1 r2 => run r1 s caps (fun s' caps' => run r2 s' caps' k)
  | Alt r1 r2 =>
      match run r1 s caps k with
      | Some res => Some res
      | None => run r2 s caps k
      end
  | Opt r1 =>
      match
        run r1 s (clear (groups r1) caps) (fun s' caps' =>
          if (String.length s' <? String.length s)%nat
          then k s' caps' else None)
      with
      | Some res => Some res
      | None => k s caps
      end
  | Star r1 =>
      (* every iteration shortens the input, so [length s] of them are
         enough *)
      (fix loop (fuel : nat) (s : string) (caps : captures) : option captures :=
         match fuel with
         | O => k s caps
         | S fuel' =>
             match
               run r1 s (clear (groups r1) caps) (fun s' caps' =>
                 if (String.length s' <? String.length s)%nat
                 then loop fuel' s' caps' else None)
             with
             | Some res => Some res
             | None => k s caps
             end
         end) (String.length s) s caps
  | Group i r1 =>
      run r1 s caps (fun s' caps' =>
        k s' (<[i := Some (consumed s s')]> caps'))
  end.

(** [RegExp.prototype.exec] for a pattern that starts with [^] and has no
    g, y or m flag: one attempt, at index 0.  Group 0 is the whole match. *)
Definition exec (ngroups : nat) (r : t) (s : string) : option captures :=
  run (Group 0 r) s (replicate (S ngroups) None) (fun _ caps => Some caps).

End Regex.

(** ** Values and objects

    The values that a parsed JSON body can hold, and [undefined].  A number
    is kept as an integer: the code tests numbers for truth and adds token
    counts, nothing else. *)

#[local] Set Warnings "-register-all".

Inductive jsval : Type :=
| JUndefined
| JNull
| JBool (b : bool)
| JNum (n : Z)
| JStr (s : string)
| JArr (l : list jsval)
| JObj (o : gmap string jsval).

Abbreviation obj := (gmap string jsval).

(** Property read: a missing property reads as [undefined]. *)
Definition get (o : obj) (f : string) : jsval :=
  default JUndefined (o !! f).

(** ToBoolean. *)
Definition truthy (v : jsval) : bool :=
  match v with
  | JUndefined | JNull => false
  | JBool b => b
  | JNum n => negb (n =? 0)
  | JStr s => negb (String.eqb s "")
  | JArr _ | JObj _ => true
  end.

Definition is_nullish (v : jsval) : bool :=
  match v with
  | JUndefined | JNull => true
  | _ => false
  end.

(** A method call [v.includes(x)] with a string argument: substring search
    on a string, membership on an array, and a TypeError on every other
    value, which has no callable [includes]. *)
Definition js_includes (v : jsval) (x : string) : result bool :=
  match v with
  | JStr s => Ok (Str.includes s x)
  | JArr l =>
      Ok (existsb (fun e => match e with
                            | JStr s => String.eqb s x
                            | _ => false
                            end) l)
  | _ => Throw TypeError
  end.

(** [v?.includes(x)]: [undefined] when [v] is null or undefined. *)
Definition js_includes_opt (v : jsval) (x : string) : result (option bool) :=
  if is_nullish v then Ok None else Some <$> js_includes v x.

(** [v.match(re)] for a pattern without the g flag: the capture array or
    [null]; only strings have the method. *)
Definition js_match (v : jsval) (ngroups : nat) (re : Regex.t)
  : result (option Regex.captures) :=
  match v with
  | JStr s => Ok (Regex.exec ngroups re s)
  | _ => Throw TypeError
  end.

(** ** The request *)

Inductive APIFormat : Type :=
| openai
| anthropic_text
| anthropic_chat.

#[global] Instance APIFormat_eq_dec : EqDecision APIFormat.
Proof. solve_decision. Defined.

(** The fields of the express request that the two files read or write. *)
Record Request : Type := mkRequest {
  req_id : string;
  req_action : string;               (* req.params.action *)
  req_body : obj;
  inboundApi : option APIFormat;
  outboundApi : option APIFormat;
  req_service : option string;
  promptTokens : option Z;
  outputTokens : option Z;
}.

Definition with_body (req : Request) (b : obj) : Request :=
  {| req_id := req_id req; req_action := req_action req; req_body := b;
     inboundApi := inboundApi req; outboundApi := outboundApi req;
     req_service := req_service req;
     promptTokens := promptTokens req; outputTokens := outputTokens req |}.

(** [req.body.model = m] *)
Definition set_model (req : Request) (m : string) : Request :=
  with_body req (<["model" := JStr m]> (req_body req)).

Definition model_of (req : Request) : jsval := get (req_body req) "model".

(** ** src/proxy/aws.ts *)

Module Aws.

Definition LATEST_AWS_V2_MINOR_VERSION : string := "1".

(** The pattern of [maybeReassignModel], anchored at the start and with
    the i flag, one line per factor:
<<
      (claude-)?                        group 1
      (instant-)?                       group 2
      (v)?                              group 3
      (\d+)                             group 4
      ([.-](\d{1}))?                    groups 5 and 6
      (-\d+k)?                          group 7
      (-sonnet-|-opus-|-haiku-)?        group 8
      (\d* )                            group 9
>> *)
Definition pattern : Regex.t :=
  let opt i r := Regex.Opt (Regex.Group i r) in
  Regex.Seq (opt 1%nat (Regex.lit "claude-"))
 (Regex.Seq (opt 2%nat (Regex.lit "instant-"))
 (Regex.Seq (opt 3%nat (Regex.lit "v"))
 (Regex.Seq (Regex.Group 4%nat (Regex.Plus Regex.Digit))
 (Regex.Seq (opt 5%nat
               (Regex.Seq (Regex.Alt (Regex.Chr ".") (Regex.Chr "-"))
                          (Regex.Group 6%nat Regex.Digit)))
 (Regex.Seq (opt 7%nat
               (Regex.Seq (Regex.Chr "-")
               (Regex.Seq (Regex.Plus Regex.Digit) (Regex.Chr "k"))))
 (Regex.Seq (opt 8%nat
               (Regex.Alt (Regex.lit "-sonnet-")
               (Regex.Alt (Regex.lit "-opus-") (Regex.lit "-haiku-"))))
            (Regex.Group 9%nat (Regex.Star Regex.Digit)))))))).

(** A capture read out of the match array: [undefined] for a group that
    took no part. *)
Definition capture (caps : Regex.captures) (i : nat) : option string :=
  mjoin (caps !! i).

(** A capture in a condition: [undefined] and the empty string are falsy. *)
Definition cap_truthy (c : option string) : bool :=
  match c with
  | Some s => negb (String.eqb s "")
  | None => false
  end.

(** A capture in a template literal. *)
Definition cap_text (c : option string) : string :=
  match c with
  | Some s => s
  | None => "undefined"
  end.

(** [name.includes(x)] on a capture: a TypeError on [undefined]. *)
Definition cap_includes (c : option string) (x : string) : result bool :=
  match c with
  | Some s => Ok (Str.includes s x)
  | None => Throw TypeError
  end.

Definition maybeReassignModel (req : Request) : result Request :=
  let model := model_of req in
  (* If it looks like an AWS model, use it as-is *)
  isAws ← js_includes model "anthropic.claude";
  if isAws : bool then Ok req
  else
    match_ ← js_match model 9 pattern;
    match match_ with
    | None =>
        (* no match: fall back to Claude v2 *)
        Ok (set_model req ("anthropic.claude-v2:" +:+ LATEST_AWS_V2_MINOR_VERSION))
    | Some caps =>
        let instant := capture caps 2 in
        let major := capture caps 4 in
        let minor := capture caps 6 in
        let name := capture caps 8 in
        if cap_truthy instant then
          Ok (set_model req "anthropic.claude-instant-v1")
        else
          let ver :=
            if cap_truthy minor
            then cap_text major +:+ "." +:+ cap_text minor
            else cap_text major in
          if String.eqb ver "1" || String.eqb ver "1.0" then
            Ok (set_model req "anthropic.claude-v1")
          else if String.eqb ver "2" || String.eqb ver "2.0" then
            Ok (set_model req "anthropic.claude-v2")
          else if String.eqb ver "3" || String.eqb ver "3.0" then
            isOpus ← cap_includes name "opus";
            if isOpus : bool then
              Ok (set_model req "anthropic.claude-3-opus-20240229-v1:0")
            else
              isHaiku ← cap_includes name "haiku";
              if isHaiku : bool then
                Ok (set_model req "anthropic.claude-3-haiku-20240307-v1:0")
              else
                Ok (set_model req "anthropic.claude-3-sonnet-20240229-v1:0")
          else if String.eqb ver "3.5" then
            Ok (set_model req "anthropic.claude-3-5-sonnet-20240620-v1:0")
          else
            (* Fallback to Claude 2.1 *)
            Ok (set_model req
                  ("anthropic.claude-v2:" +:+ LATEST_AWS_V2_MINOR_VERSION))
    end.

(** *** The preprocessors *)

Definition hook := Request → result Request.

(** Modelled from the spec: [createPreprocessorMiddleware] is defined in
    ./middleware/request, which is not among the sources.  By sections 4.3
    and 9 of the specification it is an ordered chain of steps for one route:
    the route's dialect pair and service are recorded on the request, and the
    hooks registered to run after normalization are run in order on that
    request.  Checking the body and rewriting its other fields into the
    outbound shape belong to the absent module and are left out, so this
    definition settles neither which bodies the middleware accepts nor what
    the rest of the body becomes; a hook that throws ends the chain. *)
Definition createPreprocessorMiddleware (inApi outApi : APIFormat)
    (service : string) (afterTransform : list hook) (req : Request)
  : result Request :=
  let tagged :=
    {| req_id := req_id req; req_action := req_action req;
       req_body := req_body req;
       inboundApi := Some inApi; outboundApi := Some outApi;
       req_service := Some service;
       promptTokens := promptTokens req; outputTokens := outputTokens req |} in
  foldl (fun acc (h : hook) => r ← acc; h r) (Ok tagged) afterTransform.

Definition nativeTextPreprocessor : hook :=
  createPreprocessorMiddleware anthropic_text anthropic_text "aws"
    [maybeReassignModel].

Definition textToChatPreprocessor : hook :=
  createPreprocessorMiddleware anthropic_text anthropic_chat "aws"
    [maybeReassignModel].

(** Routes text completion prompts to the chat rendering when the requested
    model names claude-3. *)
Definition preprocessAwsTextRequest (req : Request) : result Request :=
  isClaude3 ← js_includes_opt (model_of req) "claude-3";
  if default false isClaude3 then textToChatPreprocessor req
  else nativeTextPreprocessor req.

Definition oaiToAwsTextPreprocessor : hook :=
  createPreprocessorMiddleware openai anthropic_text "aws"
    [maybeReassignModel].

Definition oaiToAwsChatPreprocessor : hook :=
  createPreprocessorMiddleware openai anthropic_chat "aws"
    [maybeReassignModel].

Definition preprocessOpenAICompatRequest (req : Request) : result Request :=
  isClaude3 ← js_includes_opt (model_of req) "claude-3";
  if default false isClaude3 then oaiToAwsChatPreprocessor req
  else oaiToAwsTextPreprocessor req.

(** The preprocessor of the /v1/messages route. *)
Definition nativeChatPreprocessor : hook :=
  createPreprocessorMiddleware anthropic_chat anthropic_chat "aws"
    [maybeReassignModel].

(** The preprocessor behind [handleCompatibilityRequest] on the
    /v1/sonnet route: no hook. *)
Definition compatPreprocessor : hook :=
  createPreprocessorMiddleware anthropic_text anthropic_chat "aws" [].

(** *** Responses *)

(** What a handler writes with [res.status(s).json(j)]. *)
Record ClientResponse : Type := mkResponse {
  res_status : Z;
  res_json : obj;
}.

(** What an express middleware does with a request: it answers, or it hands
    the request to the next handler of the route. *)
Inductive outcome : Type :=
| Responded (res : ClientResponse)
| Next (req : Request).

Record ErrorOptions : Type := mkErrorOptions {
  err_title : string;
  err_message : string;
  err_format : string;
  err_statusCode : Z;
  err_reqId : string;
  err_obj : obj;
}.

(** Modelled from the spec: [sendErrorToClient] is defined in
    ./middleware/response/error-generator, which is not among the sources.
    Section 6 of the specification gives the envelope it writes:
    { error: { title, message, type }, statusCode, requestId, and the
    optional contextual fields }, sent with the status code of the error.
    The text of [type] is not fixed by the specification and is a
    parameter. *)
Definition sendErrorToClient (errorType : string) (options : ErrorOptions)
  : ClientResponse :=
  let envelope : obj :=
    <["error" := JObj (<["title" := JStr (err_title options)]>
                      (<["message" := JStr (err_message options)]>
                      (<["type" := JStr errorType]> ∅)))]>
   (<["statusCode" := JNum (err_statusCode options)]>
   (<["requestId" := JStr (err_reqId options)]> ∅)) in
  {| res_status := err_statusCode options;
     res_json := err_obj options ∪ envelope |}.

Definition compatMisuseMessage : string :=
  "Your client seems to already support the new Claude API format. This endpoint is intended for clients that do not yet support the new format."
  +:+ String (ascii_of_nat 10)
  "Use the normal `/aws/claude` proxy endpoint instead.".

Section Handlers.

(** The [type] text of the error envelope. *)
Variable errorType : string.

(** The handler of the /v1/sonnet route.  The call to the logger is left
    out; it changes neither the request nor the response. *)
Definition handleCompatibilityRequest (req : Request) : outcome :=
  let action := req_action req in
  let alreadyInChatFormat := truthy (get (req_body req) "messages") in
  let compatModel := "anthropic.claude-3-5-sonnet-20240620-v1:0" in
  if String.eqb action "messages" || alreadyInChatFormat then
    Responded (sendErrorToClient errorType
      {| err_title := "Unnecessary usage of compatibility endpoint";
         err_message := compatMisuseMessage;
         err_format := "unknown";
         err_statusCode := 400;
         err_reqId := req_id req;
         err_obj :=
           <["requested_endpoint" := JStr "/aws/claude/sonnet"]>
          (<["correct_endpoint" := JStr "/aws/claude"]> ∅) |})
  else
    Next (set_model req compatModel).

(** The clock, the random identifier and the library functions that
    [awsResponseHandler] relies on. *)
Variable now : Z.                    (* Date.now() *)
Variable v4 : string.                (* a fresh uuid *)
Variable trim : string → string.     (* String.prototype.trim *)
Variable transformAnthropicChatResponseToOpenAI : obj → obj.
Variable transformAnthropicChatResponseToAnthropicText : obj → obj.

Definition of_number (n : option Z) : jsval :=
  match n with
  | Some z => JNum z
  | None => JUndefined
  end.

(** [v?.trim()] *)
Definition js_trim_opt (v : jsval) : result jsval :=
  match v with
  | JUndefined | JNull => Ok JUndefined
  | JStr s => Ok (JStr (trim s))
  | _ => Throw TypeError
  end.

Definition transformAwsTextResponseToOpenAI (awsBody : obj) (req : Request)
  : result obj :=
  let totalTokens := default 0 (promptTokens req) + default 0 (outputTokens req) in
  content ← js_trim_opt (get awsBody "completion");
  Ok (<["id" := JStr ("aws-" +:+ v4)]>
     (<["object" := JStr "chat.completion"]>
     (<["created" := JNum now]>
     (<["model" := model_of req]>
     (<["usage" := JObj
          (<["prompt_tokens" := of_number (promptTokens req)]>
          (<["completion_tokens" := of_number (outputTokens req)]>
          (<["total_tokens" := JNum totalTokens]> ∅)))]>
     (<["choices" := JArr
          [JObj
            (<["message" := JObj
                 (<["role" := JStr "assistant"]>
                 (<["content" := content]> ∅))]>
            (<["finish_reason" := get awsBody "stop_reason"]>
            (<["index" := JNum 0]> ∅)))]]> ∅)))))).

(** The body handed to a response handler: the raw text, or the parsed
    JSON object. *)
Inductive ResBody : Type :=
| BodyText (s : string)
| BodyObj (o : obj).

(** Only used for non-streaming requests.  The calls to the logger are left
    out. *)
Definition awsResponseHandler (req : Request) (body : ResBody)
  : result ClientResponse :=
  match body with
  | BodyText _ => Throw (Error "Expected body to be an object")
  | BodyObj body =>
      newBody ←
        match inboundApi req, outboundApi req with
        | Some openai, Some anthropic_text =>
            transformAwsTextResponseToOpenAI body req
        | Some openai, Some anthropic_chat =>
            Ok (transformAnthropicChatResponseToOpenAI body)
        | Some anthropic_text, Some anthropic_chat =>
            Ok (transformAnthropicChatResponseToAnthropicText body)
        | _, _ => Ok body
        end;
      (* AWS does not always confirm the model in the response, so we have
         to add it *)
      let newBody :=
        if negb (truthy (get newBody "model")) && truthy (model_of req)
        then <["model" := model_of req]> newBody
        else newBody in
      Ok {| res_status := 200;
            res_json := <["proxy" := get body "proxy"]> newBody |}
  end.

End Handlers.

(** The ids that [maybeReassignModel] writes, in the order of its
    assignments. *)
Definition assigned_ids : list string :=
  [ "anthropic.claude-v2:1";
    "anthropic.claude-instant-v1";
    "anthropic.claude-v1";
    "anthropic.claude-v2";
    "anthropic.claude-3-opus-20240229-v1:0";
    "anthropic.claude-3-haiku-20240307-v1:0";
    "anthropic.claude-3-sonnet-20240229-v1:0";
    "anthropic.claude-3-5-sonnet-20240620-v1:0" ].

(** The native naming pattern of the upstream, as the first test of
    [maybeReassignModel] reads it. *)
Definition looks_native (v : jsval) : Prop :=
  js_includes v "anthropic.claude" = Ok true.

(** A model id of the claude-3 families, the ones served by the chat
    rendering only. *)
Definition is_claude3_id (v : jsval) : bool :=
  match v with
  | JStr s => Str.includes s "anthropic.claude-3"
  | _ => false
  end.

(** The text that [maybeReassignModel] switches on: major, or major.minor
    when the minor group took part. *)
Definition ver_of (caps : Regex.captures) : string :=
  if cap_truthy (capture caps 6)
  then cap_text (capture caps 4) +:+ "." +:+ cap_text (capture caps 6)
  else cap_text (capture caps 4).

(** The id that the branch for version 3 writes for a family capture. *)
Definition family_id (name : string) : string :=
  if Str.includes name "opus" then "anthropic.claude-3-opus-20240229-v1:0"
  else if Str.includes name "haiku" then "anthropic.claude-3-haiku-20240307-v1:0"
  else "anthropic.claude-3-sonnet-20240229-v1:0".

(** What may follow claude-3 for the pattern to stop there: nothing, or a
    character that is no digit, no dot and no dash. *)
Definition stops_pattern (rest : string) : bool :=
  match rest with
  | EmptyString => true
  | String a _ => negb (Str.is_digit a || Str.ceq a "." || Str.ceq a "-")
  end.

(** A request as a client of the text route sends it: nothing is recorded
    on it yet but the body. *)
Definition inbound (id action : string) (body : obj) : Request :=
  {| req_id := id; req_action := action; req_body := body;
     inboundApi := None; outboundApi := None; req_service := None;
     promptTokens := None; outputTokens := None |}.

(** *** The model list *)

(** The ids that [getModelsResponse] lists. *)
Definition variants : list string :=
  [ "anthropic.claude-v2";
    "anthropic.claude-v2:1";
    "anthropic.claude-3-haiku-20240307-v1:0";
    "anthropic.claude-3-sonnet-20240229-v1:0";
    "anthropic.claude-3-5-sonnet-20240620-v1:0";
    "anthropic.claude-3-opus-20240229-v1:0" ].

(** The two module variables behind [getModelsResponse]. *)
Record ModelsCache : Type := mkModelsCache {
  modelsCache : jsval;
  modelsCacheTime : Z;
}.

(** Their values when the module is loaded. *)
Definition initialModelsCache : ModelsCache :=
  {| modelsCache := JNull; modelsCacheTime := 0 |}.

(** One element of the list, built by the callback of [variants.map]. *)
Definition modelEntry (id : string) (created : Z) : jsval :=
  JObj (<["id" := JStr id]>
       (<["object" := JStr "model"]>
       (<["created" := JNum created]>
       (<["owned_by" := JStr "anthropic"]>
       (<["permission" := JArr []]>
       (<["root" := JStr "claude"]>
       (<["parent" := JNull]> ∅))))))).

Definition modelList (data : list jsval) : jsval :=
  JObj (<["object" := JStr "list"]> (<["data" := JArr data]> ∅)).

(** [!config.awsCredentials]: the setting is a string or absent, and the
    empty string counts as absent. *)
Definition hasCredentials (awsCredentials : option string) : bool :=
  match awsCredentials with
  | Some s => negb (String.eqb s "")
  | None => false
  end.

(** [getModelsResponse], with the module variables passed in and out.
    [clock n] is the n-th reading of the clock during the call: reading 0 is
    compared with the time of the cache, readings 1 to 6 date the entries
    and the next one dates the cache. *)
Definition getModelsResponse (awsCredentials : option string)
    (clock : nat → Z) (st : ModelsCache) : jsval * ModelsCache :=
  if clock 0%nat - modelsCacheTime st <? 1000 * 60 then (modelsCache st, st)
  else if negb (hasCredentials awsCredentials) then (modelList [], st)
  else
    let models := imap (fun i id => modelEntry id (clock (S i))) variants in
    let cache := modelList models in
    (cache, {| modelsCache := cache;
               modelsCacheTime := clock (S (length variants)) |}).

(** [handleModelRequest]: the status and the body written, and the module
    variables after the call. *)
Definition handleModelRequest (awsCredentials : option string)
    (clock : nat → Z) (st : ModelsCache) : (Z * jsval) * ModelsCache :=
  let '(body, st') := getModelsResponse awsCredentials clock st in
  ((200, body), st').

(** The ids of a model list, as a client reads them out of the body. *)
Definition listedIds (body : jsval) : list string :=
  match body with
  | JObj o =>
      match get o "data" with
      | JArr data =>
          omap (fun e => match e with
                         | JObj m => match get m "id" with
                                     | JStr id => Some id
                                     | _ => None
                                     end
                         | _ => None
                         end) data
      | _ => []
      end
  | _ => []
  end.

(** A series of calls of [getModelsResponse], each with the setting of the
    credentials and the clock readings it meets: the bodies returned, in
    order, and the module variables after the last call. *)
Fixpoint getModelsResponses (calls : list (option string * (nat → Z)))
    (st : ModelsCache) : list jsval * ModelsCache :=
  match calls with
  | [] => ([], st)
  | (awsCredentials, clock) :: calls' =>
      let '(body, st1) := getModelsResponse awsCredentials clock st in
      let '(bodies, st2) := getModelsResponses calls' st1 in
      (body :: bodies, st2)
  end.

(** What the cache may hold, and what a call may return: nothing yet, the
    empty list, or the list of all the ids. *)
Definition cache_ok (st : ModelsCache) : Prop :=
  modelsCache st = JNull ∨ listedIds (modelsCache st) = variants.

Definition body_ok (body : jsval) : Prop :=
  body = JNull ∨ body = modelList [] ∨ listedIds body = variants.

(** *** The routes

    The POST routes of [awsRouter], each as the chain of its handlers up to
    [awsProxy]: the result is the response of a handler that answered
    itself, or the request that reaches the proxy.  The rate limiter in
    front of every chain belongs to another module and is left out. *)

Inductive route : Type :=
| v1_complete
| v1_messages
| v1_sonnet
| v1_chat_completions.

Section Router.

Variable errorType : string.

Definition awsRouter (r : route) (req : Request) : result outcome :=
  match r with
  | v1_complete => Next <$> preprocessAwsTextRequest req
  | v1_messages => Next <$> nativeChatPreprocessor req
  | v1_sonnet =>
      match handleCompatibilityRequest errorType req with
      | Responded res => Ok (Responded res)
      | Next req' => Next <$> compatPreprocessor req'
      end
  | v1_chat_completions => Next <$> preprocessOpenAICompatRequest req
  end.

End Router.

(** A model name whose first character cannot start a match of the
    pattern: the name is empty, or it starts with something that is no
    digit and none of the letters c, i and v. *)
Definition foreign_head (m : string) : bool :=
  match m with
  | EmptyString => true
  | String a _ =>
      negb (Str.is_digit a || Str.ceq a "c" || Str.ceq a "i" || Str.ceq a "v")
  end.

Fixpoint all_digits (s : string) : bool :=
  match s with
  | EmptyString => true
  | String a s' => Str.is_digit a && all_digits s'
  end.

End Aws.

(** ** The pattern as a scan

    What the matcher computes on [Aws.pattern], written as one pass over the
    input from left to right that never goes back: each optional part is
    taken when it is there.  The section on the pattern below proves that
    the two agree on every string. *)

Module Scan.
Import Regex.

(** [strip_ci p s]: the text at the front of [s] that equals [p] up to
    case, and what follows it. *)
Fixpoint strip_ci (p s : string) : option (string * string) :=
  match p with
  | EmptyString => Some (EmptyString, s)
  | String c p' =>
      match s with
      | String a s' =>
          if Str.ceq a c then
            match strip_ci p' s' with
            | Some (m, r) => Some (String a m, r)
            | None => None
            end
          else None
      | EmptyString => None
      end
  end.

Definition opt_ci (p s : string) : option string * string :=
  match strip_ci p s with
  | Some (m, r) => (Some m, r)
  | None => (None, s)
  end.

(** The longest run of digits at the front of [s], and what follows it. *)
Fixpoint span_digits (s : string) : string * string :=
  match s with
  | String a s' =>
      if Str.is_digit a
      then let '(d, r) := span_digits s' in (String a d, r)
      else (EmptyString, s)
  | EmptyString => (EmptyString, EmptyString)
  end.

(** Groups 5 and 6: a dot or a dash and one digit. *)
Definition scan_minor (s : string) : option (string * string) * string :=
  match s with
  | String a (String b r) =>
      if (Str.ceq a "." || Str.ceq a "-") && Str.is_digit b
      then (Some (String a (String b ""), String b ""), r)
      else (None, s)
  | _ => (None, s)
  end.

(** Group 7: a dash, digits and the letter k. *)
Definition scan_ctx (s : string) : option string * string :=
  match s with
  | String a s1 =>
      if Str.ceq a "-" then
        let '(d, r) := span_digits s1 in
        if String.eqb d "" then (None, s)
        else
          match r with
          | String b r' =>
              if Str.ceq b "k"
              then (Some (String a (d +:+ String b "")), r')
              else (None, s)
          | EmptyString => (None, s)
          end
      else (None, s)
  | EmptyString => (None, s)
  end.

(** Group 8: one of the three family names between dashes. *)
Definition scan_name (s : string) : option string * string :=
  match strip_ci "-sonnet-" s with
  | Some (m, r) => (Some m, r)
  | None =>
      match strip_ci "-opus-" s with
      | Some (m, r) => (Some m, r)
      | None =>
          match strip_ci "-haiku-" s with
          | Some (m, r) => (Some m, r)
          | None => (None, s)
          end
      end
  end.

Definition scan (s : string) : option captures :=
  let '(cl, s1) := opt_ci "claude-" s in
  let '(instant, s2) := opt_ci "instant-" s1 in
  let '(v, s3) := opt_ci "v" s2 in
  let '(major, s4) := span_digits s3 in
  if String.eqb major "" then None
  else
    let '(sep_minor, s5) := scan_minor s4 in
    let '(ctx, s6) := scan_ctx s5 in
    let '(name, s7) := scan_name s6 in
    let '(rev, s8) := span_digits s7 in
    Some [ Some (consumed s s8); cl; instant; v; Some major;
           fst <$> sep_minor; snd <$> sep_minor; ctx; name; Some rev ].

(** The pattern from each group to its end. *)
Definition T9 : t := Group 9 (Star Digit).
Definition G8 : t :=
  Group 8 (Alt (lit "-sonnet-") (Alt (lit "-opus-") (lit "-haiku-"))).
Definition T8 : t := Seq (Opt G8) T9.
Definition G7 : t := Group 7 (Seq (Chr "-") (Seq (Plus Digit) (Chr "k"))).
Definition T7 : t := Seq (Opt G7) T8.
Definition G5 : t := Group 5 (Seq (Alt (Chr ".") (Chr "-")) (Group 6 Digit)).
Definition T5 : t := Seq (Opt G5) T7.
Definition T4 : t := Seq (Group 4 (Plus Digit)) T5.
Definition T3 : t := Seq (Opt (Group 3 (lit "v"))) T4.
Definition T2 : t := Seq (Opt (Group 2 (lit "instant-"))) T3.

(** The captures after an optional group. *)
Definition set_opt (i : nat) (o : option string) (caps : captures) : captures :=
  match o with
  | Some m => <[i := Some m]> (<[i := None]> caps)
  | None => caps
  end.

Definition set_minor (o : option (string * string)) (caps : captures)
  : captures :=
  match o with
  | Some (sep, minor) =>
      <[5%nat := Some sep]>
        (<[6%nat := Some minor]> (<[5%nat := None]> (<[6%nat := None]> caps)))
  | None => caps
  end.

(** A continuation that accepts whatever it is given. *)
Definition total (K : cont) : Prop := ∀ s c, is_Some (K s c).

Definition head_is (c : ascii) (s : string) : bool :=
  match s with
  | String a _ => Str.ceq a c
  | EmptyString => false
  end.

End Scan.

(** ** src/shared/key-management/palm/serializer.ts *)

Module Palm.

(** The fields of a PaLM credential, as [deserialize] builds it. *)
Record GooglePalmKey : Type := mkKey {
  key : string;
  service : string;
  modelFamilies : list string;
  isDisabled : bool;
  isRevoked : bool;
  promptCount : Z;
  lastUsed : Z;
  rateLimitedAt : Z;
  rateLimitedUntil : Z;
  hash : string;
  lastChecked : Z;
  bisonTokens : Z;
}.

(** The credential as the object the code handles. *)
Definition to_obj (k : GooglePalmKey) : obj :=
  list_to_map
    [ ("key", JStr (key k));
      ("service", JStr (service k));
      ("modelFamilies", JArr (JStr <$> modelFamilies k));
      ("isDisabled", JBool (isDisabled k));
      ("isRevoked", JBool (isRevoked k));
      ("promptCount", JNum (promptCount k));
      ("lastUsed", JNum (lastUsed k));
      ("rateLimitedAt", JNum (rateLimitedAt k));
      ("rateLimitedUntil", JNum (rateLimitedUntil k));
      ("hash", JStr (hash k));
      ("lastChecked", JNum (lastChecked k));
      ("bisonTokens", JNum (bisonTokens k)) ].

Definition SERIALIZABLE_FIELDS : list string :=
  ["key"; "service"; "hash"; "bisonTokens"].

Section Serializer.

(** [crypto.createHash(sha256).update(s).digest(hex)]: the digest of the
    Node.js runtime, as lower-case hexadecimal text. *)
Variable sha256_hex : string → string.

(** The fingerprint expression of [deserialize]. *)
Definition fingerprint (key : string) : string :=
  "plm-" +:+ Str.take 8 (sha256_hex key).

Definition serialize (key : obj) : obj :=
  {[ "key" := get key "key" ]}.

(** The literal of [deserialize] before the spread of [rest]. *)
Definition defaults (key : string) : obj :=
  list_to_map
    [ ("key", JStr key);
      ("service", JStr "google-palm");
      ("modelFamilies", JArr [JStr "bison"]);
      ("isDisabled", JBool false);
      ("isRevoked", JBool false);
      ("promptCount", JNum 0);
      ("lastUsed", JNum 0);
      ("rateLimitedAt", JNum 0);
      ("rateLimitedUntil", JNum 0);
      ("hash", JStr (fingerprint key));
      ("lastChecked", JNum 0);
      ("bisonTokens", JNum 0) ].

(** [update(key)] accepts a string and throws a TypeError on the other
    values a record can hold; the properties spread from [rest] come last
    and so replace the defaults of the same name. *)
Definition deserialize (serializedKey : obj) : result obj :=
  let key := get serializedKey "key" in
  let rest := delete "key" serializedKey in
  match key with
  | JStr key => Ok (rest ∪ defaults key)
  | _ => Throw TypeError
  end.

End Serializer.

(** The field list of section 6 of the specification, under the names the
    code gives the fields. *)
Definition persisted_fields : list string :=
  [ "key"; "service"; "modelFamilies"; "promptCount"; "lastUsed";
    "lastChecked"; "rateLimitedAt"; "rateLimitedUntil"; "isDisabled";
    "isRevoked"; "hash"; "bisonTokens" ].

Definition sample_key : GooglePalmKey :=
  {| key := "AIza-secret"; service := "google-palm";
     modelFamilies := ["bison"]; isDisabled := true; isRevoked := false;
     promptCount := 42; lastUsed := 1700000000000; rateLimitedAt := 0;
     rateLimitedUntil := 0; hash := "plm-00000000";
     lastChecked := 1700000000001; bisonTokens := 917 |}.

End Palm.

(** * Properties *)

(** ** The pattern

    The matcher, run on the pattern of [maybeReassignModel], never finds a
    match by going back: its result is the one of the scan. *)

Module ScanFacts.
Import Regex Scan.

(** *** The text that a match consumes *)

Lemma length_app m r :
  String.length (m +:+ r) = (String.length m + String.length r)%nat.
Proof. induction m as [|a m IH]; simpl; [done|]. by rewrite IH. Qed.

Lemma take_app m r : Str.take (String.length m) (m +:+ r) = m.
Proof.
  induction m as [|a m IH]; simpl; [by destruct r|]. by rewrite IH.
Qed.

Lemma consumed_app m r : consumed (m +:+ r) r = m.
Proof.
  unfold consumed. rewrite length_app.
  replace (String.length m + String.length r - String.length r)%nat
    with (String.length m) by lia.
  apply take_app.
Qed.

Lemma consumed_one a r : consumed (String a r) r = String a "".
Proof. apply (consumed_app (String a "") r). Qed.

Lemma consumed_two a b r :
  consumed (String a (String b r)) r = String a (String b "").
Proof. apply (consumed_app (String a (String b "")) r). Qed.

Lemma strip_ci_app p s m r :
  strip_ci p s = Some (m, r) → s = m +:+ r ∧ String.length m = String.length p.
Proof.
  revert s m r. induction p as [|c p IH]; intros s m r; simpl.
  - by intros [= <- <-].
  - destruct s as [|a s]; [done|]. case_match; [|done].
    destruct (strip_ci p s) as [[m' r']|] eqn:E; [|done].
    intros [= <- <-]. apply IH in E as [-> Hl]. simpl. by rewrite Hl.
Qed.

(** *** The equations of the matcher *)

Lemma run_seq r1 r2 s caps k :
  run (Seq r1 r2) s caps k = run r1 s caps (λ s' caps', run r2 s' caps' k).
Proof. reflexivity. Qed.

Lemma run_chr c a s caps k :
  run (Chr c) (String a s) caps k =
    if Str.ceq a c then k s caps else None.
Proof. reflexivity. Qed.

Lemma run_digit a s caps k :
  run Digit (String a s) caps k = if Str.is_digit a then k s caps else None.
Proof. reflexivity. Qed.

Lemma run_alt r1 r2 s caps k :
  run (Alt r1 r2) s caps k =
    match run r1 s caps k with
    | Some res => Some res
    | None => run r2 s caps k
    end.
Proof. reflexivity. Qed.

Lemma run_opt r s caps k :
  run (Opt r) s caps k =
    match
      run r s (clear (groups r) caps) (λ s' caps',
        if (String.length s' <? String.length s)%nat
        then k s' caps' else None)
    with
    | Some res => Some res
    | None => k s caps
    end.
Proof. reflexivity. Qed.

Lemma run_group i r s caps k :
  run (Group i r) s caps k =
    run r s caps (λ s' caps', k s' (<[i := Some (consumed s s')]> caps')).
Proof. reflexivity. Qed.

Lemma groups_lit p : groups (lit p) = [].
Proof.
  induction p as [|c p IH]; [done|]. destruct p; [done|].
  change (lit (String c (String a p))) with (Seq (Chr c) (lit (String a p))).
  cbn [groups]. by rewrite IH.
Qed.

(** A literal matches in one way, whatever comes after it. *)
Lemma run_lit p s caps k :
  p ≠ EmptyString →
  run (lit p) s caps k =
    match strip_ci p s with
    | Some (m, r) => k r caps
    | None => None
    end.
Proof.
  revert s. induction p as [|c p IH]; intros s Hp; [done|].
  destruct p as [|c' p].
  - simpl. destruct s as [|a s]; [done|]. by case_match.
  - change (lit (String c (String c' p))) with (Seq (Chr c) (lit (String c' p))).
    cbn [run]. destruct s as [|a s]; [done|].
    cbn [strip_ci]. case_match; [|done].
    rewrite IH by done. cbn [strip_ci]. by repeat case_match.
Qed.

Lemma span_digits_snd_cons a s :
  Str.is_digit a = true → snd (span_digits (String a s)) = snd (span_digits s).
Proof. simpl. intros ->. by destruct (span_digits s). Qed.

(** The digits are taken as far as they go, provided the continuation has
    no use for a digit handed back: when it fails after the whole run it
    fails after every shorter one. *)
Lemma run_star_digit s caps k :
  (∀ a s' c, Str.is_digit a = true →
     k (snd (span_digits s')) c = None → k (String a s') c = None) →
  run (Star Digit) s caps k = k (snd (span_digits s)) caps.
Proof.
  intros Hk. induction s as [|a s IH]; [done|].
  cbn [run String.length groups clear foldr].
  destruct (Str.is_digit a) eqn:Ha.
  - rewrite span_digits_snd_cons by done.
    assert ((String.length s <? S (String.length s))%nat = true) as ->
      by (apply Nat.ltb_lt; lia).
    cbn [run groups clear foldr] in IH. rewrite IH.
    destruct (k (snd (span_digits s)) caps) eqn:E; [done|].
    by apply Hk.
  - simpl. by rewrite Ha.
Qed.

Lemma span_digits_app s :
  s = (span_digits s).1 +:+ (span_digits s).2.
Proof.
  induction s as [|a s IH]; [done|]. cbn [span_digits].
  destruct (Str.is_digit a); [|done].
  destruct (span_digits s) as [d r]. cbn in *. by rewrite IH at 1.
Qed.

Lemma consumed_span s : consumed s (span_digits s).2 = (span_digits s).1.
Proof.
  pose proof (span_digits_app s) as H.
  destruct (span_digits s) as [d r]; cbn [fst snd] in *.
  rewrite H. apply consumed_app.
Qed.

Lemma run_plus_digit s caps K :
  (∀ a s' c, Str.is_digit a = true →
     K (span_digits s').2 c = None → K (String a s') c = None) →
  run (Plus Digit) s caps K =
    if String.eqb (span_digits s).1 "" then None
    else K (span_digits s).2 caps.
Proof.
  intros HK. unfold Plus. rewrite run_seq.
  destruct s as [|a s]; [done|]. rewrite run_digit. cbn [span_digits].
  destruct (Str.is_digit a) eqn:Ha; [|done].
  rewrite run_star_digit by done. by destruct (span_digits s).
Qed.

(** *** From the major version on

    After the digits of the major version every part is optional, so the
    rest of the pattern cannot fail and the first way tried is the match. *)

Lemma pattern_tails :
  Aws.pattern = Seq (Opt (Group 1 (lit "claude-"))) T2.
Proof. reflexivity. Qed.

Lemma run_T9 s caps K :
  total K →
  run T9 s caps K = K (span_digits s).2 (<[9%nat := Some (span_digits s).1]> caps).
Proof.
  intros HK. unfold T9. rewrite run_group.
  rewrite run_star_digit.
  - by rewrite consumed_span.
  - intros a s' c Ha E. exfalso.
    destruct (HK (span_digits s').2
                 (<[9%nat:=Some (consumed s (span_digits s').2)]> c)). congruence.
Qed.

Lemma total_T9 K : total K → total (λ s c, run T9 s c K).
Proof. intros HK s c. rewrite run_T9 by done. apply HK. Qed.

Lemma strip_ci_shorter p s m r :
  p ≠ EmptyString → strip_ci p s = Some (m, r) →
  (String.length r <? String.length s)%nat = true.
Proof.
  intros Hp H. apply strip_ci_app in H as [-> Hl]. rewrite length_app.
  apply Nat.ltb_lt. destruct p; [done|]. simpl in Hl. lia.
Qed.

Lemma run_T8 s caps K :
  total K →
  run T8 s caps K =
    run T9 (scan_name s).2 (set_opt 8 (scan_name s).1 caps) K.
Proof.
  intros HK. pose proof (total_T9 K HK) as HT.
  unfold T8, G8, scan_name.
  rewrite run_seq, run_opt, run_group, !run_alt.
  cbn [groups]. rewrite !groups_lit. cbn [clear foldr app].
  rewrite !run_lit by done.
  destruct (strip_ci "-sonnet-" s) as [[m r]|] eqn:E1.
  { rewrite (strip_ci_shorter "-sonnet-" s m r) by done.
    pose proof (strip_ci_app _ _ _ _ E1) as [Hs _].
    rewrite Hs at 1. rewrite consumed_app. cbn [fst snd set_opt].
    by destruct (HT r (<[8%nat:=Some m]> (<[8%nat:=None]> caps))) as [x ->]. }
  destruct (strip_ci "-opus-" s) as [[m r]|] eqn:E2.
  { rewrite (strip_ci_shorter "-opus-" s m r) by done.
    pose proof (strip_ci_app _ _ _ _ E2) as [Hs _].
    rewrite Hs at 1. rewrite consumed_app. cbn [fst snd set_opt].
    by destruct (HT r (<[8%nat:=Some m]> (<[8%nat:=None]> caps))) as [x ->]. }
  destruct (strip_ci "-haiku-" s) as [[m r]|] eqn:E3; [|done].
  rewrite (strip_ci_shorter "-haiku-" s m r) by done.
  pose proof (strip_ci_app _ _ _ _ E3) as [Hs _].
  rewrite Hs at 1. rewrite consumed_app. cbn [fst snd set_opt].
  by destruct (HT r (<[8%nat:=Some m]> (<[8%nat:=None]> caps))) as [x ->].
Qed.

Lemma total_T8 K : total K → total (λ s c, run T8 s c K).
Proof. intros HK s c. rewrite run_T8 by done. by apply total_T9. Qed.

Lemma digit_not_k a : Str.is_digit a = true → Str.ceq a "k" = false.
Proof. destruct a as [[] [] [] [] [] [] [] []]; by vm_compute. Qed.

Lemma append_assoc (a b c : string) : (a +:+ b) +:+ c = a +:+ (b +:+ c).
Proof.
  induction a as [|x a IH]; [done|].
  change (String x ((a +:+ b) +:+ c) = String x (a +:+ (b +:+ c))).
  by rewrite IH.
Qed.

Lemma run_T7 s caps K :
  total K →
  run T7 s caps K =
    run T8 (scan_ctx s).2 (set_opt 7 (scan_ctx s).1 caps) K.
Proof.
  intros HK. pose proof (total_T8 K HK) as HT.
  unfold T7, G7, scan_ctx.
  rewrite run_seq, run_opt, run_group, run_seq.
  cbn [groups Plus clear foldr app].
  destruct s as [|a s1]; [done|]. rewrite run_chr.
  destruct (Str.ceq a "-"); [|done].
  rewrite run_seq, run_plus_digit.
  2:{ intros a' s' c Ha _. rewrite run_chr.
      by rewrite digit_not_k. }
  pose proof (span_digits_app s1) as Hs1.
  destruct (span_digits s1) as [d r]; cbn [fst snd] in *.
  destruct (String.eqb d ""); [done|].
  destruct r as [|b r']; [done|]. rewrite run_chr.
  destruct (Str.ceq b "k"); [|done].
  assert (String a s1 = String a (d +:+ String b "") +:+ r') as Hs.
  { rewrite Hs1 at 1.
    change (String a (d +:+ String b r')
            = String a ((d +:+ String b "") +:+ r')).
    by rewrite append_assoc. }
  assert ((String.length r' <? String.length (String a s1))%nat = true) as ->.
  { rewrite Hs, length_app. apply Nat.ltb_lt. simpl. lia. }
  rewrite Hs at 1. rewrite consumed_app. cbn [fst snd set_opt].
  by destruct (HT r' (<[7%nat:=Some (String a (d +:+ String b ""))]>
                        (<[7%nat:=None]> caps))) as [x ->].
Qed.

Lemma total_T7 K : total K → total (λ s c, run T7 s c K).
Proof. intros HK s c. rewrite run_T7 by done. by apply total_T8. Qed.

Lemma run_T5 s caps K :
  total K →
  run T5 s caps K =
    run T7 (scan_minor s).2 (set_minor (scan_minor s).1 caps) K.
Proof.
  intros HK. pose proof (total_T7 K HK) as HT.
  unfold T5, G5, scan_minor.
  rewrite run_seq, run_opt, run_group, run_seq, run_alt.
  cbn [groups clear foldr app].
  destruct s as [|a s1]; [done|]. rewrite !run_chr.
  destruct s1 as [|b r].
  { by destruct (Str.ceq a "."), (Str.ceq a "-"). }
  rewrite !run_group, !run_digit.
  assert ((String.length r <? String.length (String a (String b r)))%nat = true)
    as -> by (apply Nat.ltb_lt; simpl; lia).
  rewrite !consumed_two, !consumed_one.
  destruct (Str.is_digit b).
  - destruct (HT r (<[5%nat:=Some (String a (String b ""))]>
                     (<[6%nat:=Some (String b "")]>
                        (<[5%nat:=None]> (<[6%nat:=None]> caps))))) as [x Hx].
    destruct (Str.ceq a "."), (Str.ceq a "-"); cbn [orb andb fst snd set_minor];
      by rewrite ?Hx.
  - by destruct (Str.ceq a "."), (Str.ceq a "-").
Qed.

Lemma total_T5 K : total K → total (λ s c, run T5 s c K).
Proof. intros HK s c. rewrite run_T5 by done. by apply total_T7. Qed.

Lemma run_T4 s caps K :
  total K →
  run T4 s caps K =
    if String.eqb (span_digits s).1 "" then None
    else run T5 (span_digits s).2 (<[4%nat := Some (span_digits s).1]> caps) K.
Proof.
  intros HK. pose proof (total_T5 K HK) as HT.
  unfold T4. rewrite run_seq, run_group, run_plus_digit.
  - destruct (String.eqb (span_digits s).1 ""); [done|].
    by rewrite consumed_span.
  - intros a s' c _ E. exfalso.
    destruct (HT (span_digits s').2
                 (<[4%nat:=Some (consumed s (span_digits s').2)]> c)). congruence.
Qed.

(** *** The optional prefixes

    When a prefix group has matched and the rest of the pattern fails on
    what follows, the matcher tries the rest of the pattern on the input
    with the prefix still in place.  That input starts with a letter, which
    no later prefix and no digit matches, so the second try fails too. *)

Lemma strip_ci_head c p s m r :
  strip_ci (String c p) s = Some (m, r) → head_is c s = true.
Proof.
  destruct s as [|a s]; [done|]. cbn [strip_ci head_is].
  by destruct (Str.ceq a c).
Qed.

Lemma strip_ci_head_ne c c' p s :
  head_is c s = true →
  (∀ a, Str.ceq a c = true → Str.ceq a c' = false) →
  strip_ci (String c' p) s = None.
Proof.
  destruct s as [|a s]; [done|]. cbn [strip_ci head_is].
  intros Ha H. by rewrite (H a Ha).
Qed.

Lemma span_digits_head c s :
  head_is c s = true →
  (∀ a, Str.ceq a c = true → Str.is_digit a = false) →
  (span_digits s).1 = "".
Proof.
  destruct s as [|a s]; [done|]. cbn [span_digits head_is].
  intros Ha H. by rewrite (H a Ha).
Qed.

Lemma ceq_c a : Str.ceq a "c" = true →
  Str.ceq a "i" = false ∧ Str.ceq a "v" = false ∧ Str.is_digit a = false.
Proof. destruct a as [[] [] [] [] [] [] [] []]; by vm_compute. Qed.

Lemma ceq_i a : Str.ceq a "i" = true → Str.ceq a "v" = false ∧ Str.is_digit a = false.
Proof. destruct a as [[] [] [] [] [] [] [] []]; by vm_compute. Qed.

Lemma ceq_v a : Str.ceq a "v" = true → Str.is_digit a = false.
Proof. destruct a as [[] [] [] [] [] [] [] []]; by vm_compute. Qed.

Lemma run_opt_lit_fallback i p s caps T K :
  p ≠ EmptyString →
  (∀ m r, strip_ci p s = Some (m, r) → run T s caps K = None) →
  run (Seq (Opt (Group i (lit p))) T) s caps K =
    run T (opt_ci p s).2 (set_opt i (opt_ci p s).1 caps) K.
Proof.
  intros Hp HT. rewrite run_seq, run_opt, run_group.
  cbn [groups clear foldr app]. rewrite run_lit by done.
  unfold opt_ci. destruct (strip_ci p s) as [[m r]|] eqn:E; [|done].
  rewrite (strip_ci_shorter p s m r) by done.
  pose proof (strip_ci_app _ _ _ _ E) as [Hs _].
  rewrite Hs at 1. rewrite consumed_app, groups_lit. cbn [foldr fst snd set_opt].
  rewrite (HT m r eq_refl). by case_match.
Qed.

Lemma run_T4_head c s caps K :
  total K → head_is c s = true →
  (∀ a, Str.ceq a c = true → Str.is_digit a = false) →
  run T4 s caps K = None.
Proof.
  intros HK Hh Hc. rewrite run_T4 by done.
  by rewrite (span_digits_head c s).
Qed.

Lemma run_T3 s caps K :
  total K →
  run T3 s caps K =
    run T4 (opt_ci "v" s).2 (set_opt 3 (opt_ci "v" s).1 caps) K.
Proof.
  intros HK. unfold T3. apply run_opt_lit_fallback; [done|].
  intros m r E. apply (run_T4_head "v"); [done|by eapply strip_ci_head|].
  apply ceq_v.
Qed.

Lemma run_T3_head c s caps K :
  total K → head_is c s = true →
  (∀ a, Str.ceq a c = true → Str.ceq a "v" = false ∧ Str.is_digit a = false) →
  run T3 s caps K = None.
Proof.
  intros HK Hh Hc. rewrite run_T3 by done. unfold opt_ci.
  rewrite (strip_ci_head_ne c "v" "" s Hh) by (intros a Ha; by apply Hc).
  cbn [fst snd set_opt].
  apply (run_T4_head c); [done..|]. intros a Ha. by apply Hc.
Qed.

Lemma run_T2 s caps K :
  total K →
  run T2 s caps K =
    run T3 (opt_ci "instant-" s).2 (set_opt 2 (opt_ci "instant-" s).1 caps) K.
Proof.
  intros HK. unfold T2. apply run_opt_lit_fallback; [done|].
  intros m r E. apply (run_T3_head "i"); [done|by eapply strip_ci_head|].
  apply ceq_i.
Qed.

Lemma run_T2_head_c s caps K :
  total K → head_is "c" s = true → run T2 s caps K = None.
Proof.
  intros HK Hh. rewrite run_T2 by done. unfold opt_ci.
  rewrite (strip_ci_head_ne "c" "i" "nstant-" s Hh)
    by (intros a Ha; by apply ceq_c).
  cbn [fst snd set_opt].
  apply (run_T3_head "c"); [done..|]. intros a Ha.
  by destruct (ceq_c a Ha) as (_ & ? & ?).
Qed.

Lemma run_pattern s caps K :
  total K →
  run Aws.pattern s caps K =
    run T2 (opt_ci "claude-" s).2 (set_opt 1 (opt_ci "claude-" s).1 caps) K.
Proof.
  intros HK. rewrite pattern_tails. apply run_opt_lit_fallback; [done|].
  intros m r E. apply run_T2_head_c; [done|by eapply strip_ci_head].
Qed.

Lemma exec_scan s : exec 9 Aws.pattern s = scan s.
Proof.
  unfold exec, scan. rewrite run_group.
  set (K := λ (s' : string) (caps' : captures),
              Some (<[0%nat := Some (consumed s s')]> caps')).
  assert (total K) as HK by (intros ? ?; by eexists).
  rewrite run_pattern, run_T2, run_T3, run_T4 by done.
  destruct (opt_ci "claude-" s) as [cl s1]; cbn [fst snd].
  destruct (opt_ci "instant-" s1) as [instant s2]; cbn [fst snd].
  destruct (opt_ci "v" s2) as [v s3]; cbn [fst snd].
  destruct (span_digits s3) as [major s4]; cbn [fst snd].
  destruct (String.eqb major ""); [done|].
  rewrite run_T5, run_T7, run_T8, run_T9 by done.
  destruct (scan_minor s4) as [sep_minor s5]; cbn [fst snd].
  destruct (scan_ctx s5) as [ctx s6]; cbn [fst snd].
  destruct (scan_name s6) as [name s7]; cbn [fst snd].
  destruct (span_digits s7) as [rev s8]; cbn [fst snd].
  unfold K. by destruct cl, instant, v, sep_minor as [[??]|], ctx, name.
Qed.

End ScanFacts.

(** ** Model reconciliation *)

Module AwsFacts.
Import Aws.

Lemma model_of_set_model req m : model_of (set_model req m) = JStr m.
Proof. unfold model_of, set_model, get; simpl. by rewrite lookup_insert_eq. Qed.

Lemma set_model_set_model req m : set_model (set_model req m) m = set_model req m.
Proof.
  unfold set_model, with_body; simpl. by rewrite insert_insert_eq.
Qed.

Ltac unfold_bind := unfold mbind, result_bind, fmap, result_fmap in *.

(** Whatever the input, a call that returns has either left the request
    alone, because its model looked native, or written one of the eight
    fixed ids. *)
Lemma maybeReassignModel_cases req req' :
  maybeReassignModel req = Ok req' →
  (req' = req ∧ looks_native (model_of req)) ∨
  (∃ id, id ∈ assigned_ids ∧ req' = set_model req id).
Proof.
  unfold maybeReassignModel, looks_native.
  destruct (js_includes (model_of req) "anthropic.claude") as [[|]|e] eqn:Hinc;
    unfold_bind; [intros [= <-]; by left| |done].
  intros H; right.
  repeat (case_match; simplify_eq);
    (eexists; split; [|reflexivity]; unfold assigned_ids; set_solver).
Qed.

Lemma assigned_ids_native id : id ∈ assigned_ids → looks_native (JStr id).
Proof.
  unfold assigned_ids, looks_native. intros H.
  repeat (apply elem_of_cons in H as [->|H]; [by vm_compute|]).
  by apply elem_of_nil in H.
Qed.

Lemma looks_native_pass req :
  looks_native (model_of req) → maybeReassignModel req = Ok req.
Proof. unfold looks_native, maybeReassignModel. by intros ->. Qed.

Lemma looks_native_truthy v : looks_native v → truthy v = true.
Proof.
  unfold looks_native. destruct v as [| | | |s|l|]; simpl; try done.
  destruct s; [by vm_compute|done].
Qed.

(** A call that returns leaves a native model on the request. *)
Lemma maybeReassignModel_leaves_native req req' :
  maybeReassignModel req = Ok req' → looks_native (model_of req').
Proof.
  intros H.
  apply maybeReassignModel_cases in H as [[-> Hn]|(id & Hid & ->)]; [done|].
  rewrite model_of_set_model. by apply assigned_ids_native.
Qed.

(** X4: the branches of the version switch that return, for a model that
    is not native, matches the pattern and is not an instant model:
    version 1 or 1.0 gives the v1 id, 2 or 2.0 the v2 id, 3 or 3.0 with a
    family capture the id of that family (sonnet unless the capture
    contains opus or haiku in lower case), 3.5 the sonnet 3.5 id, and every
    other version the id anthropic.claude-v2:1. *)
Lemma version_table req m caps :
  model_of req = JStr m →
  Str.includes m "anthropic.claude" = false →
  Regex.exec 9 pattern m = Some caps →
  cap_truthy (capture caps 2) = false →
  (ver_of caps ∈ ["1"; "1.0"] →
     maybeReassignModel req = Ok (set_model req "anthropic.claude-v1")) ∧
  (ver_of caps ∈ ["2"; "2.0"] →
     maybeReassignModel req = Ok (set_model req "anthropic.claude-v2")) ∧
  (ver_of caps ∈ ["3"; "3.0"] → ∀ name, capture caps 8 = Some name →
     maybeReassignModel req = Ok (set_model req (family_id name))) ∧
  (ver_of caps = "3.5" →
     maybeReassignModel req =
       Ok (set_model req "anthropic.claude-3-5-sonnet-20240620-v1:0")) ∧
  (ver_of caps ∉ ["1"; "1.0"; "2"; "2.0"; "3"; "3.0"; "3.5"] →
     maybeReassignModel req = Ok (set_model req "anthropic.claude-v2:1")).
Proof.
  intros Hm Hinc Hex Hinst.
  unfold maybeReassignModel, ver_of in *. rewrite Hm; simpl.
  rewrite Hinc; simpl. rewrite Hex; simpl. rewrite Hinst.
  set (ver := if cap_truthy (capture caps 6) then _ else _).
  repeat split.
  - intros Hv. repeat (apply elem_of_cons in Hv as [->|Hv]; [done|]).
    by apply elem_of_nil in Hv.
  - intros Hv. repeat (apply elem_of_cons in Hv as [->|Hv]; [done|]).
    by apply elem_of_nil in Hv.
  - intros Hv name ->. unfold family_id.
    repeat (apply elem_of_cons in Hv as [->|Hv];
            [simpl; by repeat case_match|]).
    by apply elem_of_nil in Hv.
  - by intros ->.
  - intros Hv.
    assert (∀ x, x ∈ ["1"; "1.0"; "2"; "2.0"; "3"; "3.0"; "3.5"] →
                 String.eqb ver x = false) as Hne.
    { intros x Hx. apply String.eqb_neq. intros ->. done. }
    rewrite !Hne by set_solver. done.
Qed.

(** X5: a call on a string model fails in one way only: the model does not
    contain anthropic.claude, the pattern matches it without the instant
    group, the version is 3 or 3.0 and no family was captured; the error is
    then a TypeError. *)
Lemma maybeReassignModel_throws_only_without_family req m e :
  model_of req = JStr m →
  maybeReassignModel req = Throw e →
  e = TypeError ∧
  Str.includes m "anthropic.claude" = false ∧
  ∃ caps, Regex.exec 9 pattern m = Some caps ∧
          cap_truthy (capture caps 2) = false ∧
          ver_of caps ∈ ["3"; "3.0"] ∧
          capture caps 8 = None.
Proof.
  intros Hm. unfold maybeReassignModel. rewrite Hm; simpl.
  destruct (Str.includes m "anthropic.claude") eqn:Hinc; simpl; [done|].
  destruct (Regex.exec 9 pattern m) as [caps|] eqn:Hex; [|done].
  destruct (cap_truthy (capture caps 2)) eqn:Hinst; [done|].
  fold (ver_of caps).
  destruct (String.eqb (ver_of caps) "1" || String.eqb (ver_of caps) "1.0");
    [done|].
  destruct (String.eqb (ver_of caps) "2" || String.eqb (ver_of caps) "2.0");
    [done|].
  destruct (String.eqb (ver_of caps) "3" || String.eqb (ver_of caps) "3.0")
    eqn:H3.
  - destruct (capture caps 8) as [name|] eqn:Hname; simpl.
    { by repeat case_match. }
    intros [= <-]. repeat split; try done.
    exists caps. repeat split; try done.
    apply orb_true_iff in H3 as [H3|H3]; apply String.eqb_eq in H3;
      rewrite H3; set_solver.
  - by case_match.
Qed.

(** The examples of section 8 of the specification. *)
Lemma specification_examples :
  let reconcile m :=
    model_of <$> maybeReassignModel (inbound "r1" "complete" {["model" := JStr m]}) in
  reconcile "claude-v2" = Ok (JStr "anthropic.claude-v2") ∧
  reconcile "claude-3-opus-20240229"
    = Ok (JStr "anthropic.claude-3-opus-20240229-v1:0") ∧
  reconcile "claude-instant-1" = Ok (JStr "anthropic.claude-instant-v1") ∧
  reconcile "gpt-4" = Ok (JStr "anthropic.claude-v2:1") ∧
  reconcile "claude-3-5-sonnet-20240620"
    = Ok (JStr "anthropic.claude-3-5-sonnet-20240620-v1:0").
Proof. by vm_compute. Qed.

(** The three shapes named in the comment above the pattern. *)
Lemma pattern_on_documented_names :
  Regex.exec 9 pattern "claude-v1"
    = Some [Some "claude-v1"; Some "claude-"; None; Some "v"; Some "1";
            None; None; None; None; Some ""] ∧
  Regex.exec 9 pattern "claude-2.1"
    = Some [Some "claude-2.1"; Some "claude-"; None; None; Some "2";
            Some ".1"; Some "1"; None; None; Some ""] ∧
  Regex.exec 9 pattern "claude-3-5-sonnet-20240620-v1:0"
    = Some [Some "claude-3-5-sonnet-20240620"; Some "claude-"; None; None;
            Some "3"; Some "-5"; Some "5"; None; Some "-sonnet-";
            Some "20240620"].
Proof. by vm_compute. Qed.

(** The pattern ignores case and the family test does not: an upper-case
    family name is captured and then read as no opus and no haiku. *)
Lemma upper_case_family_is_sonnet :
  model_of <$> maybeReassignModel
     (inbound "r1" "complete" {["model" := JStr "claude-3-OPUS-20240229"]})
  = Ok (JStr "anthropic.claude-3-sonnet-20240229-v1:0").
Proof. by vm_compute. Qed.

(** X6: the failure is not tied to one spelling: claude-3 followed by
    nothing, or by text that starts with no digit, dot or dash, ends in a
    TypeError unless the name contains anthropic.claude. *)
Lemma claude_3_then_other_text_throws req rest :
  model_of req = JStr ("claude-3" +:+ rest) →
  Str.includes ("claude-3" +:+ rest) "anthropic.claude" = false →
  stops_pattern rest = true →
  maybeReassignModel req = Throw TypeError.
Proof.
  intros Hm Hinc Hrest.
  assert (Regex.exec 9 pattern ("claude-3" +:+ rest)
          = Some [Some "claude-3"; Some "claude-"; None; None; Some "3";
                  None; None; None; None; Some ""]) as Hex.
  { rewrite ScanFacts.exec_scan. unfold Scan.scan.
    destruct rest as [|a rest]; [by vm_compute|].
    cbn [stops_pattern] in Hrest.
    apply negb_true_iff, orb_false_iff in Hrest as [Hrest Hdash].
    apply orb_false_iff in Hrest as [Hdigit Hdot].
    change (Scan.opt_ci "claude-" ("claude-3" +:+ String a rest))
      with (Some "claude-", String "3" (String a rest)).
    cbv beta iota.
    change (Scan.opt_ci "instant-" (String "3" (String a rest)))
      with (@None string, String "3" (String a rest)).
    cbv beta iota.
    change (Scan.opt_ci "v" (String "3" (String a rest)))
      with (@None string, String "3" (String a rest)).
    cbv beta iota.
    assert (Scan.span_digits (String "3" (String a rest))
            = ("3", String a rest)) as ->.
    { cbn [Scan.span_digits]. change (Str.is_digit "3") with true.
      by rewrite Hdigit. }
    change (String.eqb "3" "") with false. cbv beta iota.
    assert (Scan.scan_minor (String a rest) = (None, String a rest)) as ->.
    { unfold Scan.scan_minor. destruct rest; [done|].
      by rewrite Hdot, Hdash. }
    assert (Scan.scan_ctx (String a rest) = (None, String a rest)) as ->.
    { unfold Scan.scan_ctx. by rewrite Hdash. }
    assert (Scan.scan_name (String a rest) = (None, String a rest)) as ->.
    { unfold Scan.scan_name. cbn [Scan.strip_ci]. by rewrite Hdash. }
    assert (Scan.span_digits (String a rest) = ("", String a rest)) as ->.
    { cbn [Scan.span_digits]. by rewrite Hdigit. }
    cbn [fmap option_fmap option_map].
    by rewrite (ScanFacts.consumed_app "claude-3" (String a rest)). }
  unfold maybeReassignModel. rewrite Hm. cbn [js_includes js_match].
  rewrite Hinc. cbn [mbind result_bind]. by rewrite Hex.
Qed.

(** C1: on the model string claude-3, whose major version is 3 and which
    names no family, [maybeReassignModel] does not return: reading
    [includes] off the absent family capture raises a TypeError, whatever
    else the request holds. *)
Theorem maybeReassignModel_claude_3_throws id action body :
  maybeReassignModel (inbound id action (<["model" := JStr "claude-3"]> body))
  = Throw TypeError.
Proof.
  unfold maybeReassignModel, model_of, get; simpl.
  rewrite lookup_insert_eq; simpl. by vm_compute.
Qed.

(** C5: reconciliation is idempotent.  When [maybeReassignModel] returns,
    the model it leaves on the request matches the native naming test, and a
    second call on that request returns it unchanged. *)
Theorem maybeReassignModel_idempotent req req' :
  maybeReassignModel req = Ok req' →
  looks_native (model_of req') ∧ maybeReassignModel req' = Ok req'.
Proof.
  intros H. apply maybeReassignModel_leaves_native in H.
  split; [done|by apply looks_native_pass].
Qed.

Lemma maybeReassignModel_idempotent_witness :
  let req := inbound "r1" "complete" {["model" := JStr "claude-2.1"]} in
  let req' := set_model req "anthropic.claude-v2:1" in
  maybeReassignModel req = Ok req' ∧
  looks_native (model_of req') ∧ maybeReassignModel req' = Ok req'.
Proof.
  intros req req'.
  assert (maybeReassignModel req = Ok req') as H by (by vm_compute).
  split; [exact H|exact (maybeReassignModel_idempotent req req' H)].
Defined.

(** C6: the row of the version table for 3 and 3.0 has no default.  For a
    model that is not native, matches the pattern and is not an instant
    model, version 3 or 3.0 without a family capture ends in a TypeError and
    writes no sonnet id. *)
Theorem version_3_without_family_throws req m caps :
  model_of req = JStr m →
  Str.includes m "anthropic.claude" = false →
  Regex.exec 9 pattern m = Some caps →
  cap_truthy (capture caps 2) = false →
  ver_of caps ∈ ["3"; "3.0"] →
  capture caps 8 = None →
  maybeReassignModel req = Throw TypeError.
Proof.
  intros Hm Hinc Hex Hinst Hv Hname.
  unfold maybeReassignModel, ver_of in *. rewrite Hm; simpl.
  rewrite Hinc; simpl. rewrite Hex; simpl. rewrite Hinst, Hname.
  repeat (apply elem_of_cons in Hv as [->|Hv]; [done|]).
  by apply elem_of_nil in Hv.
Qed.

Lemma version_3_without_family_throws_witness :
  let req := inbound "r1" "complete" {["model" := JStr "claude-3.0"]} in
  Regex.exec 9 pattern "claude-3.0"
    = Some [Some "claude-3.0"; Some "claude-"; None; None; Some "3";
            Some ".0"; Some "0"; None; None; Some ""] ∧
  maybeReassignModel req = Throw TypeError.
Proof.
  intros req. split; [by vm_compute|].
  apply (version_3_without_family_throws req "claude-3.0"
           [Some "claude-3.0"; Some "claude-"; None; None; Some "3";
            Some ".0"; Some "0"; None; None; Some ""]).
  - by vm_compute.
  - by vm_compute.
  - by vm_compute.
  - by vm_compute.
  - vm_compute. set_solver.
  - by vm_compute.
Defined.

(** ** Routing and the response handler *)

Lemma maybeReassignModel_formats req req' :
  maybeReassignModel req = Ok req' →
  inboundApi req' = inboundApi req ∧ outboundApi req' = outboundApi req.
Proof.
  intros H. by apply maybeReassignModel_cases in H as [[-> _]|(id & _ & ->)].
Qed.

(** A route preprocessor whose only hook is the reconciliation: the request
    that leaves it carries the route's dialect pair and a native model. *)
Lemma reconciling_preprocessor inApi outApi service req req' :
  createPreprocessorMiddleware inApi outApi service [maybeReassignModel] req
    = Ok req' →
  inboundApi req' = Some inApi ∧ outboundApi req' = Some outApi ∧
  looks_native (model_of req').
Proof.
  unfold createPreprocessorMiddleware; simpl. intros H.
  destruct (maybeReassignModel_formats _ _ H) as [-> ->].
  by apply maybeReassignModel_leaves_native in H.
Qed.

(** What the test of the text route reads: when the preprocessing of a
    request on /v1/complete returns, the chat rendering was chosen exactly
    when the model string that the client sent contains claude-3 in lower
    case; the test is made before reconciliation. *)
Lemma text_route_follows_requested_model req req' m :
  model_of req = JStr m →
  preprocessAwsTextRequest req = Ok req' →
  inboundApi req' = Some anthropic_text ∧
  (outboundApi req' = Some anthropic_chat ↔ Str.includes m "claude-3" = true).
Proof.
  intros Hm. unfold preprocessAwsTextRequest, js_includes_opt.
  rewrite Hm; simpl.
  destruct (Str.includes m "claude-3"); simpl;
    unfold textToChatPreprocessor, nativeTextPreprocessor; intros H;
    apply reconciling_preprocessor in H as (-> & -> & _);
    (split; [done|]); split; done.
Qed.

Lemma text_route_follows_requested_model_witness :
  let req := inbound "r1" "complete" {["model" := JStr "claude-3-opus-20240229"]} in
  ∃ req', preprocessAwsTextRequest req = Ok req' ∧
    inboundApi req' = Some anthropic_text ∧
    (outboundApi req' = Some anthropic_chat ↔
     Str.includes "claude-3-opus-20240229" "claude-3" = true).
Proof.
  intros req.
  destruct (preprocessAwsTextRequest req) as [req'|e] eqn:H;
    [|by vm_compute in H].
  exists req'. split; [done|].
  apply (text_route_follows_requested_model req req' "claude-3-opus-20240229");
    [by vm_compute|exact H].
Defined.

(** X11: on the route of the OpenAI dialect a request whose model is a
    string is given the chat rendering if and only if that string, as the
    client sent it, contains claude-3; the inbound dialect recorded is the
    OpenAI one. *)
Lemma openai_route_follows_requested_model req req' m :
  model_of req = JStr m →
  preprocessOpenAICompatRequest req = Ok req' →
  inboundApi req' = Some openai ∧
  (outboundApi req' = Some anthropic_chat ↔ Str.includes m "claude-3" = true).
Proof.
  intros Hm. unfold preprocessOpenAICompatRequest, js_includes_opt.
  rewrite Hm; simpl.
  destruct (Str.includes m "claude-3"); simpl;
    unfold oaiToAwsChatPreprocessor, oaiToAwsTextPreprocessor; intros H;
    apply reconciling_preprocessor in H as (-> & -> & _);
    (split; [done|]); split; done.
Qed.

(** C3: the text route decides on the spelling that the client sent and
    not on the reconciled model.  The client string Claude-3-opus-20240229,
    with a capital C, is reconciled to the claude-3 opus id, a model that
    by the comment of the route cannot be served by the legacy text
    rendering; yet the request leaves the route with that rendering, so the
    rendering is not the chat one although the reconciled model is of the
    claude-3 family. *)
Theorem text_route_ignores_reconciled_model :
  let req := inbound "r1" "complete"
               {["model" := JStr "Claude-3-opus-20240229"]} in
  ∃ req', preprocessAwsTextRequest req = Ok req' ∧
    model_of req' = JStr "anthropic.claude-3-opus-20240229-v1:0" ∧
    is_claude3_id (model_of req') = true ∧
    outboundApi req' = Some anthropic_text ∧
    ¬ (outboundApi req' = Some anthropic_chat ↔
       is_claude3_id (model_of req') = true).
Proof.
  intros req.
  destruct (preprocessAwsTextRequest req) as [req'|e] eqn:H;
    [|by vm_compute in H].
  exists req'. vm_compute in H. injection H as <-.
  split; [done|]. split; [by vm_compute|]. split; [by vm_compute|].
  split; [done|].
  intros [_ Hback]. by specialize (Hback eq_refl).
Qed.

(** The other direction: a client string that contains claude-3 takes the
    chat rendering even when reconciliation falls back to the v2 id. *)
Lemma text_route_chat_with_fallback_model :
  let req := inbound "r1" "complete"
               {["model" := JStr "claude-3-7-sonnet-20250219"]} in
  ∃ req', preprocessAwsTextRequest req = Ok req' ∧
    model_of req' = JStr "anthropic.claude-v2:1" ∧
    outboundApi req' = Some anthropic_chat.
Proof.
  intros req.
  destruct (preprocessAwsTextRequest req) as [req'|e] eqn:H;
    [|by vm_compute in H].
  exists req'. vm_compute in H. injection H as <-. by vm_compute.
Qed.

(** C2, as the code has it: when neither the upstream body nor its
    conversion carries a model, the handler fills the field from
    [req.body.model] as it stands when the response arrives, and on every
    route with the reconciliation hook that is the reconciled id. *)
Theorem response_model_is_reconciled_model
    now v4 trim (toOpenAI toText : obj → obj)
    inApi outApi service req req' body res :
  (∀ b, truthy (get b "model") = false →
        truthy (get (toOpenAI b) "model") = false) →
  (∀ b, truthy (get b "model") = false →
        truthy (get (toText b) "model") = false) →
  createPreprocessorMiddleware inApi outApi service [maybeReassignModel] req
    = Ok req' →
  truthy (get body "model") = false →
  awsResponseHandler now v4 trim toOpenAI toText req' (BodyObj body) = Ok res →
  get (res_json res) "model" = model_of req' ∧ looks_native (model_of req').
Proof.
  intros HtO HtT Hpre Hbody.
  apply reconciling_preprocessor in Hpre as (Hin & Hout & Hnat).
  pose proof (looks_native_truthy _ Hnat) as Htr.
  unfold awsResponseHandler. rewrite Hin, Hout.
  assert (∀ nb : obj, truthy (get nb "model") = false →
            get (<["proxy" := get body "proxy"]>
                   (if negb (truthy (get nb "model")) && truthy (model_of req')
                    then <["model" := model_of req']> nb else nb)) "model"
            = model_of req') as Hfill.
  { intros nb ->. rewrite Htr; simpl. unfold get at 1.
    rewrite lookup_insert_ne by done. by rewrite lookup_insert_eq. }
  intros H. split; [|done].
  destruct inApi, outApi; unfold_bind; simpl in H.
  2:{ (* openai from anthropic-text: the conversion copies req.body.model *)
      unfold transformAwsTextResponseToOpenAI in H. unfold_bind.
      destruct (js_trim_opt trim (get body "completion")) as [c|]; [|done].
      injection H as <-; simpl.
      match goal with |- get (<[_:=_]> (if ?c then _ else _)) _ = _ =>
        replace c with false end.
      - unfold get. rewrite lookup_insert_ne by done.
        do 3 (rewrite lookup_insert_ne by done).
        by rewrite lookup_insert_eq.
      - unfold get at 1. do 3 (rewrite lookup_insert_ne by done).
        rewrite lookup_insert_eq; simpl. by rewrite Htr. }
  all: injection H as <-; simpl; apply Hfill; auto.
Qed.

Lemma response_model_is_reconciled_model_witness :
  let req := inbound "r1" "complete" {["model" := JStr "claude-2"]} in
  let body : obj := {["completion" := JStr "Hello"]} in
  ∃ req' res,
    nativeTextPreprocessor req = Ok req' ∧
    awsResponseHandler 0 "" (λ s, s) (λ b, b) (λ b, b) req' (BodyObj body)
      = Ok res ∧
    get (res_json res) "model" = model_of req' ∧ looks_native (model_of req').
Proof.
  intros req body.
  destruct (nativeTextPreprocessor req) as [req'|e] eqn:Hpre;
    [|by vm_compute in Hpre].
  destruct (awsResponseHandler 0 "" (λ s, s) (λ b, b) (λ b, b) req'
              (BodyObj body)) as [res|e] eqn:Hres.
  - exists req', res. split; [done|]. split; [done|].
    apply (response_model_is_reconciled_model 0 "" (λ s, s) (λ b, b) (λ b, b)
             anthropic_text anthropic_text "aws" req req' body res);
      [by intros b Hb|by intros b Hb|exact Hpre|by vm_compute|exact Hres].
  - vm_compute in Hpre. injection Hpre as <-. by vm_compute in Hres.
Defined.

(** C2, as the claim states it, fails: the client asks for claude-2 on the
    text route, the upstream body has no model, and the body returned names
    anthropic.claude-v2 and not the string the client sent. *)
Lemma response_model_is_not_requested_model :
  let req := inbound "r1" "complete" {["model" := JStr "claude-2"]} in
  let body : obj := {["completion" := JStr "Hello"]} in
  ∃ req' res,
    nativeTextPreprocessor req = Ok req' ∧
    body !! "model" = None ∧
    awsResponseHandler 0 "" (λ s, s) (λ b, b) (λ b, b) req' (BodyObj body)
      = Ok res ∧
    get (res_json res) "model" = JStr "anthropic.claude-v2" ∧
    get (res_json res) "model" ≠ model_of req.
Proof.
  intros req body.
  destruct (nativeTextPreprocessor req) as [req'|e] eqn:Hpre;
    [|by vm_compute in Hpre].
  vm_compute in Hpre. injection Hpre as <-.
  eexists _, _. split; [reflexivity|]. split; [by vm_compute|].
  split; [reflexivity|]. split; by vm_compute.
Qed.

(** ** The compatibility endpoint *)

(** C4: a request to the compatibility endpoint whose action is messages,
    or whose body holds a message list, is answered through the error
    generator with status code 400 and the two endpoint fields, so that the
    response has status 400 and an envelope that names the requested and the
    correct endpoint; the request is not handed to the next handler, so
    nothing reaches the upstream. *)
Theorem handleCompatibilityRequest_rejects_chat_format errorType req :
  req_action req = "messages" ∨ (∃ l, get (req_body req) "messages" = JArr l) →
  ∃ options,
    handleCompatibilityRequest errorType req
      = Responded (sendErrorToClient errorType options) ∧
    err_statusCode options = 400 ∧
    err_obj options =
      <["requested_endpoint" := JStr "/aws/claude/sonnet"]>
        (<["correct_endpoint" := JStr "/aws/claude"]> ∅) ∧
    let res := sendErrorToClient errorType options in
    res_status res = 400 ∧
    res_json res !! "statusCode" = Some (JNum 400) ∧
    res_json res !! "requested_endpoint" = Some (JStr "/aws/claude/sonnet") ∧
    res_json res !! "correct_endpoint" = Some (JStr "/aws/claude") ∧
    ∀ req', handleCompatibilityRequest errorType req ≠ Next req'.
Proof.
  intros Hchat. unfold handleCompatibilityRequest.
  assert (String.eqb (req_action req) "messages"
          || truthy (get (req_body req) "messages") = true) as ->.
  { destruct Hchat as [->|[l ->]]; [done|]. simpl. by rewrite orb_true_r. }
  eexists. split; [reflexivity|]. repeat split; try done.
Qed.

Lemma handleCompatibilityRequest_rejects_chat_format_witness :
  let msg : obj := <["role" := JStr "user"]> (<["content" := JStr "Hi"]> ∅) in
  let req := inbound "r1" "complete"
               (<["model" := JStr "claude-2"]>
               (<["messages" := JArr [JObj msg]]> ∅)) in
  get (req_body req) "messages" = JArr [JObj msg] ∧
  ∃ options,
    handleCompatibilityRequest "proxy_error" req
      = Responded (sendErrorToClient "proxy_error" options) ∧
    err_statusCode options = 400 ∧
    err_obj options =
      <["requested_endpoint" := JStr "/aws/claude/sonnet"]>
        (<["correct_endpoint" := JStr "/aws/claude"]> ∅) ∧
    let res := sendErrorToClient "proxy_error" options in
    res_status res = 400 ∧
    res_json res !! "statusCode" = Some (JNum 400) ∧
    res_json res !! "requested_endpoint" = Some (JStr "/aws/claude/sonnet") ∧
    res_json res !! "correct_endpoint" = Some (JStr "/aws/claude") ∧
    ∀ req', handleCompatibilityRequest "proxy_error" req ≠ Next req'.
Proof.
  intros msg req.
  assert (get (req_body req) "messages" = JArr [JObj msg]) as H
    by (by vm_compute).
  split; [exact H|].
  apply (handleCompatibilityRequest_rejects_chat_format "proxy_error" req).
  right. by exists [JObj msg].
Defined.

(** C10: whenever [handleCompatibilityRequest] hands the request on, the
    request it hands on is the one it received with the model of the body
    replaced by the fixed sonnet 3.5 id, whatever model the client sent. *)
Theorem handleCompatibilityRequest_forces_model errorType req req' :
  handleCompatibilityRequest errorType req = Next req' →
  req' = set_model req "anthropic.claude-3-5-sonnet-20240620-v1:0" ∧
  model_of req' = JStr "anthropic.claude-3-5-sonnet-20240620-v1:0".
Proof.
  unfold handleCompatibilityRequest. case_match; [done|].
  intros [= <-]. split; [done|apply model_of_set_model].
Qed.

Lemma handleCompatibilityRequest_forces_model_witness :
  let req := inbound "r1" "complete"
               (<["model" := JStr "gpt-4"]> (<["prompt" := JStr "Hi"]> ∅)) in
  let req' := set_model req "anthropic.claude-3-5-sonnet-20240620-v1:0" in
  handleCompatibilityRequest "proxy_error" req = Next req' ∧
  req' = set_model req "anthropic.claude-3-5-sonnet-20240620-v1:0" ∧
  model_of req' = JStr "anthropic.claude-3-5-sonnet-20240620-v1:0".
Proof.
  intros req req'.
  assert (handleCompatibilityRequest "proxy_error" req = Next req') as H
    by (by vm_compute).
  split; [exact H|].
  exact (handleCompatibilityRequest_forces_model "proxy_error" req req' H).
Defined.

(** On the compatibility route no reconciliation runs: the model that
    reaches the response handler is the forced one. *)
Lemma compat_route_model errorType req req1 req2 :
  handleCompatibilityRequest errorType req = Next req1 →
  compatPreprocessor req1 = Ok req2 →
  model_of req2 = JStr "anthropic.claude-3-5-sonnet-20240620-v1:0" ∧
  outboundApi req2 = Some anthropic_chat.
Proof.
  unfold handleCompatibilityRequest. case_match; [done|].
  intros [= <-]. unfold compatPreprocessor, createPreprocessorMiddleware; simpl.
  intros [= <-]. split; [|done].
  unfold model_of, get; simpl. by rewrite lookup_insert_eq.
Qed.

End AwsFacts.

(** ** The PaLM key serializer *)

Module PalmFacts.
Import Palm.

Section Facts.

Variable sha256_hex : string → string.

Lemma lookup_deserialize serializedKey k o f :
  serializedKey !! "key" = Some (JStr k) →
  deserialize sha256_hex serializedKey = Ok o →
  o !! f = match serializedKey !! f with
           | Some v => Some v
           | None => defaults sha256_hex k !! f
           end.
Proof.
  intros Hk. unfold deserialize, get. rewrite Hk; simpl. intros [= <-].
  rewrite lookup_union. destruct (decide (f = "key")) as [->|Hf].
  - rewrite lookup_delete_eq, Hk. done.
  - rewrite lookup_delete_ne by done.
    destruct (serializedKey !! f); [|by rewrite (left_id_L None _)].
    by destruct (defaults sha256_hex k !! f).
Qed.

(** C7: a record with a string key is read back as a credential.  Without a
    hash in the record the hash is the fingerprint computed from the key;
    every counter the record omits is 0 and every flag it omits is false;
    and every field that the record does carry keeps the value of the
    record. *)
Theorem deserialize_fills_defaults serializedKey k :
  serializedKey !! "key" = Some (JStr k) →
  ∃ o,
    deserialize sha256_hex serializedKey = Ok o ∧
    (serializedKey !! "hash" = None →
       o !! "hash" = Some (JStr ("plm-" +:+ Str.take 8 (sha256_hex k)))) ∧
    (∀ f, f ∈ ["promptCount"; "lastUsed"; "lastChecked"; "rateLimitedAt";
               "rateLimitedUntil"; "bisonTokens"] →
       serializedKey !! f = None → o !! f = Some (JNum 0)) ∧
    (∀ f, f ∈ ["isDisabled"; "isRevoked"] →
       serializedKey !! f = None → o !! f = Some (JBool false)) ∧
    (serializedKey !! "service" = None →
       o !! "service" = Some (JStr "google-palm")) ∧
    (serializedKey !! "modelFamilies" = None →
       o !! "modelFamilies" = Some (JArr [JStr "bison"])) ∧
    (∀ f v, serializedKey !! f = Some v → o !! f = Some v).
Proof.
  intros Hk.
  destruct (deserialize sha256_hex serializedKey) as [o|e] eqn:Hd.
  2:{ unfold deserialize, get in Hd. by rewrite Hk in Hd. }
  exists o. split; [done|].
  pose proof (λ f, lookup_deserialize serializedKey k o f Hk Hd) as Hl.
  repeat split.
  - intros Hn. by rewrite Hl, Hn.
  - intros f Hf Hn. rewrite Hl, Hn.
    repeat (apply elem_of_cons in Hf as [->|Hf]; [done|]).
    by apply elem_of_nil in Hf.
  - intros f Hf Hn. rewrite Hl, Hn.
    repeat (apply elem_of_cons in Hf as [->|Hf]; [done|]).
    by apply elem_of_nil in Hf.
  - intros Hn. by rewrite Hl, Hn.
  - intros Hn. by rewrite Hl, Hn.
  - intros f v Hf. by rewrite Hl, Hf.
Qed.

(** C8, as the code has it: the record that [serialize] writes has the
    single field key, holding the secret; no other field of the credential
    is written. *)
Theorem serialize_writes_key_only (k : GooglePalmKey) (f : string) :
  serialize (to_obj k) !! f =
    if decide (f = "key") then Some (JStr (key k)) else None.
Proof.
  unfold serialize. case_decide as Hf.
  - subst f. by rewrite lookup_singleton_eq.
  - by rewrite lookup_singleton_ne.
Qed.

(** In particular the fields of [SERIALIZABLE_FIELDS] other than the key
    are not written. *)
Lemma serialize_omits_serializable_fields (k : GooglePalmKey) (f : string) :
  f ∈ SERIALIZABLE_FIELDS → f ≠ "key" → serialize (to_obj k) !! f = None.
Proof. intros _ Hf. unfold serialize. by rewrite lookup_singleton_ne. Qed.

(** C9: serializing a credential and reading it back keeps the key and
    nothing else: the hash is computed again from the key, the counters are
    0 and the flags false, whatever the credential held. *)
Theorem deserialize_serialize (k : GooglePalmKey) :
  deserialize sha256_hex (serialize (to_obj k)) =
    Ok (to_obj
          {| key := key k;
             service := "google-palm";
             modelFamilies := ["bison"];
             isDisabled := false;
             isRevoked := false;
             promptCount := 0;
             lastUsed := 0;
             rateLimitedAt := 0;
             rateLimitedUntil := 0;
             hash := "plm-" +:+ Str.take 8 (sha256_hex (key k));
             lastChecked := 0;
             bisonTokens := 0 |}).
Proof.
  unfold deserialize, serialize.
  assert (get (to_obj k) "key" = JStr (key k)) as -> by reflexivity.
  unfold get. rewrite lookup_singleton_eq, delete_singleton_eq.
  cbv [default from_option id].
  by rewrite (left_id_L ∅ (∪) (defaults sha256_hex (key k))).
Qed.

End Facts.

Lemma deserialize_fills_defaults_witness :
  let digest : string → string := λ _, "2c26b46b68ffc68ff99b453c1d304134" in
  let record : obj := <["key" := JStr "AIza-secret"]> (<["bisonTokens" := JNum 7]> ∅) in
  ∃ o,
    deserialize digest record = Ok o ∧
    o !! "hash" = Some (JStr "plm-2c26b46b") ∧
    o !! "promptCount" = Some (JNum 0) ∧
    o !! "isRevoked" = Some (JBool false) ∧
    o !! "bisonTokens" = Some (JNum 7).
Proof.
  intros digest record.
  destruct (deserialize_fills_defaults digest record "AIza-secret")
    as (o & Hd & Hhash & Hcount & Hflag & _ & _ & Hkeep); [by vm_compute|].
  exists o. split; [exact Hd|]. split; [by apply Hhash|].
  split; [apply Hcount; [set_solver|by vm_compute]|].
  split; [apply Hflag; [set_solver|by vm_compute]|].
  apply Hkeep. by vm_compute.
Defined.

(** C8, as the claim states it, fails: the record written for a credential
    with a prompt count, timestamps and a disabled flag holds none of them,
    only the key. *)
Lemma serialize_omits_persisted_fields :
  ¬ (∀ f, f ∈ persisted_fields → is_Some (serialize (to_obj sample_key) !! f)) ∧
  serialize (to_obj sample_key) !! "promptCount" = None ∧
  serialize (to_obj sample_key) !! "hash" = None ∧
  serialize (to_obj sample_key) !! "isDisabled" = None.
Proof.
  split; [|by vm_compute].
  intros H. destruct (H "promptCount") as [v Hv]; [|by vm_compute in Hv].
  unfold persisted_fields. set_solver.
Qed.

End PalmFacts.

(** * Further properties of the code *)

(** ** What the pattern captures *)

Module PatternProps.
Import Regex Scan Aws.

(** X1: on every input the backtracking matcher, run on the pattern of
    [maybeReassignModel], returns what one greedy pass from left to right
    returns: going back never finds another match.  There is no match
    exactly when no digit follows the optional prefixes claude-, instant-
    and v. *)
Theorem exec_pattern_scan s :
  exec 9 pattern s = scan s ∧
  (exec 9 pattern s = None ↔
   (span_digits
      (opt_ci "v" (opt_ci "instant-" (opt_ci "claude-" s).2).2).2).1 = "").
Proof.
  split; [apply ScanFacts.exec_scan|].
  rewrite ScanFacts.exec_scan. unfold scan.
  destruct (opt_ci "claude-" s) as [cl s1]; cbn [fst snd].
  destruct (opt_ci "instant-" s1) as [inst s2]; cbn [fst snd].
  destruct (opt_ci "v" s2) as [v s3]; cbn [fst snd].
  destruct (span_digits s3) as [major s4]; cbn [fst snd].
  destruct (String.eqb major "") eqn:Hmajor.
  - apply String.eqb_eq in Hmajor. by split.
  - apply String.eqb_neq in Hmajor.
    destruct (scan_minor s4) as [sm s5], (scan_ctx s5) as [ctx s6],
      (scan_name s6) as [name s7], (span_digits s7) as [rev s8].
    by split.
Qed.

(** The parts of a match, read off the scan. *)
Lemma exec_parts s caps :
  exec 9 pattern s = Some caps →
  let s1 := (opt_ci "claude-" s).2 in
  let s2 := (opt_ci "instant-" s1).2 in
  let s3 := (opt_ci "v" s2).2 in
  let s4 := (span_digits s3).2 in
  let s5 := (scan_minor s4).2 in
  let s6 := (scan_ctx s5).2 in
  let s7 := (scan_name s6).2 in
  (span_digits s3).1 ≠ "" ∧
  caps = [ Some (consumed s (span_digits s7).2);
           (opt_ci "claude-" s).1; (opt_ci "instant-" s1).1;
           (opt_ci "v" s2).1; Some (span_digits s3).1;
           fst <$> (scan_minor s4).1; snd <$> (scan_minor s4).1;
           (scan_ctx s5).1; (scan_name s6).1; Some (span_digits s7).1 ].
Proof.
  rewrite ScanFacts.exec_scan. unfold scan.
  destruct (opt_ci "claude-" s) as [cl s1]; cbn [fst snd].
  destruct (opt_ci "instant-" s1) as [inst s2]; cbn [fst snd].
  destruct (opt_ci "v" s2) as [v s3]; cbn [fst snd].
  destruct (span_digits s3) as [major s4]; cbn [fst snd].
  destruct (String.eqb major "") eqn:Hmajor; [done|].
  destruct (scan_minor s4) as [sm s5]; cbn [fst snd].
  destruct (scan_ctx s5) as [ctx s6]; cbn [fst snd].
  destruct (scan_name s6) as [name s7]; cbn [fst snd].
  destruct (span_digits s7) as [rev s8]; cbn [fst snd].
  intros [= <-]. split; [|done]. by apply String.eqb_neq.
Qed.

Lemma span_digits_all_digits s : all_digits (span_digits s).1 = true.
Proof.
  induction s as [|a s IH]; [done|]. cbn [span_digits].
  destruct (Str.is_digit a) eqn:Ha; [|done].
  destruct (span_digits s) as [d r]; cbn [fst snd all_digits] in *.
  by rewrite Ha, IH.
Qed.

Lemma scan_minor_digit s sep minor r :
  scan_minor s = (Some (sep, minor), r) →
  ∃ d, minor = String d "" ∧ Str.is_digit d = true.
Proof.
  unfold scan_minor. destruct s as [|a [|b s]]; [done..|].
  destruct (Str.ceq a "." || Str.ceq a "-"); [|done].
  destruct (Str.is_digit b) eqn:Hb; [|done].
  intros [= <- <- <-]. by exists b.
Qed.

Lemma scan_ctx_needs_minor s :
  (scan_minor s).1 = None → scan_ctx s = (None, s).
Proof.
  unfold scan_minor, scan_ctx. destruct s as [|a s1]; [done|].
  destruct (Str.ceq a "-") eqn:Ha; [|done].
  destruct s1 as [|b r]; [done|]. rewrite orb_true_r. cbn [andb span_digits].
  by destruct (Str.is_digit b).
Qed.

(** X2: the context-size group takes part in a match only when the
    minor-version group does.  Directly after the major version a dash and
    digits are read as a minor version, so a name such as claude-2-100k has
    version 2.1 and no context size. *)
Theorem context_size_needs_minor s caps :
  exec 9 pattern s = Some caps →
  capture caps 7 ≠ None →
  capture caps 6 ≠ None.
Proof.
  intros Hex. destruct (exec_parts s caps Hex) as [_ ->].
  cbn [capture lookup list_lookup mjoin option_join].
  match goal with
  | |- context [scan_minor ?x] =>
      destruct (scan_minor x) as [[[sep minor]|] s5] eqn:Hm
  end; cbn [fst snd fmap option_fmap option_map]; [done|].
  intros Hctx _. apply Hctx. clear Hctx.
  match type of Hm with scan_minor ?x = _ =>
    pose proof (scan_ctx_needs_minor x) as Hc; rewrite Hm in Hc;
    specialize (Hc eq_refl);
    assert (s5 = x) as -> by
      (revert Hm; unfold scan_minor; destruct x as [|a [|b r]]; try congruence;
       case_match; congruence)
  end.
  by rewrite Hc.
Qed.

Lemma context_size_needs_minor_witness :
  exec 9 pattern "claude-2.1-100k"
    = Some [Some "claude-2.1-100k"; Some "claude-"; None; None; Some "2";
            Some ".1"; Some "1"; Some "-100k"; None; Some ""] ∧
  exec 9 pattern "claude-2-100k"
    = Some [Some "claude-2-100"; Some "claude-"; None; None; Some "2";
            Some "-1"; Some "1"; None; None; Some "00"] ∧
  capture [Some "claude-2.1-100k"; Some "claude-"; None; None; Some "2";
           Some ".1"; Some "1"; Some "-100k"; None; Some ""] 6 ≠ None.
Proof.
  split; [by vm_compute|]. split; [by vm_compute|].
  apply (context_size_needs_minor "claude-2.1-100k"); by vm_compute.
Defined.

(** X3: a match always has ten captures, a major version that is a
    non-empty run of digits and, when the minor group took part, a minor
    version of exactly one digit; the version text that
    [maybeReassignModel] switches on is therefore the major version or the
    major version, a dot and that digit. *)
Theorem match_has_numeric_version s caps :
  exec 9 pattern s = Some caps →
  length caps = 10%nat ∧
  ∃ major,
    capture caps 4 = Some major ∧ major ≠ "" ∧ all_digits major = true ∧
    ((capture caps 6 = None ∧ ver_of caps = major) ∨
     (∃ d, capture caps 6 = Some (String d "") ∧ Str.is_digit d = true ∧
           ver_of caps = major +:+ "." +:+ String d "")).
Proof.
  intros Hex. destruct (exec_parts s caps Hex) as [Hmajor ->].
  split; [done|]. eexists. split; [reflexivity|]. split; [done|].
  split; [apply span_digits_all_digits|].
  unfold ver_of. cbn [capture lookup list_lookup mjoin option_join].
  match goal with
  | |- context [scan_minor ?x] =>
      destruct (scan_minor x) as [[[sep minor]|] s5] eqn:Hm
  end; cbn [fst snd fmap option_fmap option_map]; [|by left].
  right. apply scan_minor_digit in Hm as (d & -> & Hd).
  exists d. by repeat split.
Qed.

Lemma match_has_numeric_version_witness :
  length [Some "claude-2.1"; Some "claude-"; None; None; Some "2";
          Some ".1"; Some "1"; None; None; Some ""] = 10%nat ∧
  ∃ major,
    capture [Some "claude-2.1"; Some "claude-"; None; None; Some "2";
             Some ".1"; Some "1"; None; None; Some ""] 4 = Some major ∧
    major ≠ "" ∧ all_digits major = true ∧
    ((capture [Some "claude-2.1"; Some "claude-"; None; None; Some "2";
               Some ".1"; Some "1"; None; None; Some ""] 6 = None ∧
      ver_of [Some "claude-2.1"; Some "claude-"; None; None; Some "2";
              Some ".1"; Some "1"; None; None; Some ""] = major) ∨
     (∃ d, capture [Some "claude-2.1"; Some "claude-"; None; None; Some "2";
                    Some ".1"; Some "1"; None; None; Some ""] 6
             = Some (String d "") ∧ Str.is_digit d = true ∧
           ver_of [Some "claude-2.1"; Some "claude-"; None; None; Some "2";
                   Some ".1"; Some "1"; None; None; Some ""]
             = major +:+ "." +:+ String d "")).
Proof.
  apply (match_has_numeric_version "claude-2.1"). by vm_compute.
Defined.

End PatternProps.

(** ** More on model reconciliation *)

Module ReconcileProps.
Import Regex Scan Aws AwsFacts.

Lemma version_table_witness :
  let req := inbound "r1" "complete" {["model" := JStr "claude-2.1"]} in
  maybeReassignModel req = Ok (set_model req "anthropic.claude-v2:1").
Proof.
  intros req.
  refine (proj2 (proj2 (proj2 (proj2
    (version_table req "claude-2.1"
       [Some "claude-2.1"; Some "claude-"; None; None; Some "2";
        Some ".1"; Some "1"; None; None; Some ""] _ _ _ _)))) _);
    try (by vm_compute).
  vm_compute. intros H.
  repeat (apply elem_of_cons in H as [H|H]; [discriminate H|]).
  by apply elem_of_nil in H.
Defined.

Lemma maybeReassignModel_throws_only_without_family_witness :
  let req := inbound "r1" "complete" {["model" := JStr "claude-3"]} in
  maybeReassignModel req = Throw TypeError ∧
  ∃ caps, exec 9 pattern "claude-3" = Some caps ∧
          ver_of caps ∈ ["3"; "3.0"] ∧ capture caps 8 = None.
Proof.
  intros req.
  assert (maybeReassignModel req = Throw TypeError) as H by (by vm_compute).
  split; [exact H|].
  destruct (maybeReassignModel_throws_only_without_family req "claude-3"
              TypeError eq_refl H) as (_ & _ & caps & Hex & _ & Hver & Hname).
  by exists caps.
Defined.

Lemma claude_3_then_other_text_throws_witness :
  let req := inbound "r1" "complete" {["model" := JStr "claude-3@latest"]} in
  stops_pattern "@latest" = true ∧ maybeReassignModel req = Throw TypeError.
Proof.
  intros req. split; [by vm_compute|].
  apply (claude_3_then_other_text_throws req "@latest"); by vm_compute.
Defined.

(** X7: for a model given as a string, [maybeReassignModel] hands the
    request back exactly as it was if and only if the string contains
    anthropic.claude; every other string that it accepts has its model
    rewritten. *)
Theorem untouched_iff_native req m :
  model_of req = JStr m →
  (maybeReassignModel req = Ok req ↔ Str.includes m "anthropic.claude" = true).
Proof.
  intros Hm. split.
  - intros H. apply maybeReassignModel_leaves_native in H.
    unfold looks_native in H. rewrite Hm in H. simpl in H. congruence.
  - intros H. apply looks_native_pass. unfold looks_native.
    rewrite Hm. simpl. by rewrite H.
Qed.

Lemma untouched_iff_native_witness :
  let req := inbound "r1" "messages"
               {["model" := JStr "anthropic.claude-3-haiku-20240307-v1:0"]} in
  maybeReassignModel req = Ok req ↔
  Str.includes "anthropic.claude-3-haiku-20240307-v1:0" "anthropic.claude" = true.
Proof.
  intros req.
  apply (untouched_iff_native req "anthropic.claude-3-haiku-20240307-v1:0").
  by vm_compute.
Defined.

(** X8: a call that returns changes nothing but the model: the identifier,
    the route parameter, the recorded dialects and token counts are the
    same, and so is every other property of the body. *)
Theorem only_model_changes req req' :
  maybeReassignModel req = Ok req' →
  req_id req' = req_id req ∧ req_action req' = req_action req ∧
  inboundApi req' = inboundApi req ∧ outboundApi req' = outboundApi req ∧
  req_service req' = req_service req ∧
  promptTokens req' = promptTokens req ∧
  outputTokens req' = outputTokens req ∧
  ∀ f, f ≠ "model" → req_body req' !! f = req_body req !! f.
Proof.
  intros H.
  apply maybeReassignModel_cases in H as [[-> _]|(id & _ & ->)]; [done|].
  repeat split. intros f Hf. unfold set_model, with_body; simpl.
  by rewrite lookup_insert_ne.
Qed.

Lemma only_model_changes_witness :
  let req := inbound "r1" "complete"
               (<["model" := JStr "claude-v1"]> (<["prompt" := JStr "Hi"]> ∅)) in
  ∃ req', maybeReassignModel req = Ok req' ∧
          req_body req' !! "prompt" = Some (JStr "Hi") ∧
          req_action req' = "complete".
Proof.
  intros req.
  destruct (maybeReassignModel req) as [req'|e] eqn:H; [|by vm_compute in H].
  exists req'. split; [done|].
  destruct (only_model_changes req req' H) as (_ & Ha & _ & _ & _ & _ & _ & Hb).
  split; [by rewrite Hb|by rewrite Ha].
Defined.

Lemma foreign_head_no_match m : foreign_head m = true → scan m = None.
Proof.
  destruct m as [|a rest]; [done|]. cbn [foreign_head].
  intros H. apply negb_true_iff in H.
  repeat (apply orb_false_iff in H as [H ?]).
  unfold scan, opt_ci. cbn [strip_ci].
  repeat match goal with H : Str.ceq a _ = false |- _ => rewrite H; clear H end.
  cbn [fst snd span_digits]. by rewrite H.
Qed.

(** X9: a model name that is empty, or whose first character is no digit
    and none of the letters c, i and v in either case, cannot match the
    pattern, and unless it contains anthropic.claude the model becomes
    anthropic.claude-v2:1.  The names of other vendors end here. *)
Theorem foreign_name_falls_back req m :
  model_of req = JStr m →
  foreign_head m = true →
  Str.includes m "anthropic.claude" = false →
  maybeReassignModel req = Ok (set_model req "anthropic.claude-v2:1").
Proof.
  intros Hm Hhead Hinc. unfold maybeReassignModel.
  rewrite Hm. cbn [js_includes js_match]. rewrite Hinc.
  cbn [mbind result_bind].
  by rewrite ScanFacts.exec_scan, foreign_head_no_match.
Qed.

Lemma foreign_name_falls_back_witness :
  let req := inbound "r1" "chat" {["model" := JStr "gpt-4-turbo"]} in
  foreign_head "gpt-4-turbo" = true ∧
  maybeReassignModel req = Ok (set_model req "anthropic.claude-v2:1").
Proof.
  intros req. split; [by vm_compute|].
  apply (foreign_name_falls_back req "gpt-4-turbo"); by vm_compute.
Defined.

Lemma strip_ci_append p1 p2 s :
  strip_ci (p1 +:+ p2) s =
    match strip_ci p1 s with
    | Some (m1, r1) =>
        match strip_ci p2 r1 with
        | Some (m2, r2) => Some (m1 +:+ m2, r2)
        | None => None
        end
    | None => None
    end.
Proof.
  revert s. induction p1 as [|c p1 IH]; intros s.
  - change ("" +:+ p2) with p2. cbn [strip_ci].
    destruct (strip_ci p2 s) as [[m2 r2]|]; [|done].
    by change ("" +:+ m2) with m2.
  - change (String c p1 +:+ p2) with (String c (p1 +:+ p2)).
    cbn [strip_ci]. destruct s as [|a s]; [done|].
    destruct (Str.ceq a c); [|done]. rewrite IH.
    destruct (strip_ci p1 s) as [[m1 r1]|]; [|done].
    by destruct (strip_ci p2 r1) as [[m2 r2]|].
Qed.

Lemma digit_not_v a : Str.is_digit a = true → Str.ceq a "v" = false.
Proof. destruct a as [[] [] [] [] [] [] [] []]; by vm_compute. Qed.

(** X10: a name that starts with claude-instant-, in any mix of cases,
    followed by a digit, and that does not contain anthropic.claude, is
    given the instant id whatever version and family follow: the instant
    test comes before the version switch.  (A name that contains
    anthropic.claude is handed back as it is by the first test.) *)
Theorem instant_name_wins req m p a rest :
  model_of req = JStr m →
  strip_ci "claude-instant-" m = Some (p, String a rest) →
  Str.is_digit a = true →
  Str.includes m "anthropic.claude" = false →
  maybeReassignModel req = Ok (set_model req "anthropic.claude-instant-v1").
Proof.
  intros Hm Hstrip Ha Hinc.
  change "claude-instant-" with ("claude-" +:+ "instant-") in Hstrip.
  rewrite strip_ci_append in Hstrip.
  destruct (strip_ci "claude-" m) as [[p1 s1]|] eqn:H1; [|done].
  destruct (strip_ci "instant-" s1) as [[p2 s2]|] eqn:H2; [|done].
  injection Hstrip as <- ->.
  assert (p2 ≠ "") as Hp2.
  { apply ScanFacts.strip_ci_app in H2 as [_ Hl]. by destruct p2. }
  destruct (exec 9 pattern m) as [caps|] eqn:Hex.
  - destruct (PatternProps.exec_parts m caps Hex) as [_ Hcaps].
    unfold opt_ci in Hcaps. rewrite H1 in Hcaps. cbn [fst snd] in Hcaps.
    rewrite H2 in Hcaps. cbn [fst snd] in Hcaps.
    unfold maybeReassignModel. rewrite Hm. cbn [js_includes js_match].
    rewrite Hinc. cbn [mbind result_bind]. rewrite Hex, Hcaps.
    cbn [capture lookup list_lookup mjoin option_join cap_truthy].
    apply String.eqb_neq in Hp2. by rewrite Hp2.
  - exfalso. rewrite ScanFacts.exec_scan in Hex. unfold scan, opt_ci in Hex.
    rewrite H1, H2 in Hex. cbn [strip_ci] in Hex.
    rewrite (digit_not_v a Ha) in Hex. cbn [span_digits] in Hex.
    rewrite Ha in Hex.
    destruct (span_digits rest) as [d r]. cbn [String.eqb] in Hex.
    by repeat case_match.
Qed.

Lemma instant_name_wins_witness :
  let req := inbound "r1" "complete" {["model" := JStr "Claude-Instant-3"]} in
  strip_ci "claude-instant-" "Claude-Instant-3" = Some ("Claude-Instant-", "3") ∧
  maybeReassignModel req = Ok (set_model req "anthropic.claude-instant-v1").
Proof.
  intros req. split; [by vm_compute|].
  apply (instant_name_wins req "Claude-Instant-3" "Claude-Instant-" "3" "");
    by vm_compute.
Defined.

End ReconcileProps.

(** ** The routes *)

Module RouteProps.
Import Aws AwsFacts.

Lemma openai_route_follows_requested_model_witness :
  let req := inbound "r1" "" {["model" := JStr "claude-2.1"]} in
  ∃ req', preprocessOpenAICompatRequest req = Ok req' ∧
    inboundApi req' = Some openai ∧
    outboundApi req' = Some anthropic_text.
Proof.
  intros req.
  destruct (preprocessOpenAICompatRequest req) as [req'|e] eqn:H;
    [|by vm_compute in H].
  exists req'. split; [done|].
  destruct (openai_route_follows_requested_model req req' "claude-2.1"
              eq_refl H) as [Hin Hout].
  split; [done|]. vm_compute in H. by injection H as <-.
Defined.




Lemma variants_native_family m :
  m ∈ variants →
  looks_native (JStr m) ∧ Str.includes m "claude-3" = is_claude3_id (JStr m).
Proof.
  unfold variants. intros Hm.
  repeat (apply elem_of_cons in Hm as [->|Hm]; [by vm_compute|]).
  by apply elem_of_nil in Hm.
Qed.

(** X13: for every id that the model list advertises, the routing tests
    of the text route and of the OpenAI route pick the preprocessor of the
    chat rendering exactly when the id is an id of the claude-3 families,
    and the one of the legacy text rendering otherwise; and
    [maybeReassignModel], called on a request with that id, hands the
    request back as it is.  For the advertised ids the choice made on the
    requested name is the choice the reconciled id calls for. *)
Theorem listed_ids_branch_by_family req m :
  m ∈ variants →
  model_of req = JStr m →
  maybeReassignModel req = Ok req ∧
  preprocessAwsTextRequest req =
    (if is_claude3_id (JStr m) then textToChatPreprocessor req
     else nativeTextPreprocessor req) ∧
  preprocessOpenAICompatRequest req =
    (if is_claude3_id (JStr m) then oaiToAwsChatPreprocessor req
     else oaiToAwsTextPreprocessor req).
Proof.
  intros Hin Hm. destruct (variants_native_family m Hin) as [Hnat <-].
  split.
  - apply looks_native_pass. by rewrite Hm.
  - unfold preprocessAwsTextRequest, preprocessOpenAICompatRequest,
      js_includes_opt.
    rewrite Hm.
    cbn [is_nullish fmap result_fmap js_includes mbind result_bind].
    by destruct (Str.includes m "claude-3").
Qed.

Lemma listed_ids_branch_by_family_witness :
  let req := inbound "r1" "complete"
               {["model" := JStr "anthropic.claude-3-opus-20240229-v1:0"]} in
  maybeReassignModel req = Ok req ∧
  preprocessAwsTextRequest req = textToChatPreprocessor req ∧
  preprocessOpenAICompatRequest req = oaiToAwsChatPreprocessor req.
Proof.
  intros req.
  apply (listed_ids_branch_by_family req "anthropic.claude-3-opus-20240229-v1:0");
    [|by vm_compute].
  unfold variants. repeat constructor.
Defined.

(** X14: [handleCompatibilityRequest] hands a request on exactly when the
    action is not messages and the messages property of the body is absent
    or falsy; a body whose messages is null, false, zero or the empty
    string is therefore still forwarded. *)
Theorem compat_accepts_iff errorType req :
  (∃ req', handleCompatibilityRequest errorType req = Next req') ↔
  req_action req ≠ "messages" ∧ truthy (get (req_body req) "messages") = false.
Proof.
  unfold handleCompatibilityRequest.
  destruct (String.eqb (req_action req) "messages") eqn:Ha; simpl.
  - apply String.eqb_eq in Ha. split; [by intros [? ?]|by intros [? _]].
  - apply String.eqb_neq in Ha.
    destruct (truthy (get (req_body req) "messages")).
    + split; [by intros [? ?]|by intros [_ ?]].
    + split; [done|]. intros _. by eexists.
Qed.

(** X15: whatever route a request takes, if it reaches the proxy it
    carries a model that contains anthropic.claude, the service aws and one
    of the two Anthropic renderings; on the compatibility route the
    rendering is the chat one and the model the fixed sonnet 3.5 id. *)
Theorem proxied_request_is_native errorType r req req' :
  awsRouter errorType r req = Ok (Next req') →
  looks_native (model_of req') ∧
  req_service req' = Some "aws" ∧
  (outboundApi req' = Some anthropic_text ∨
   outboundApi req' = Some anthropic_chat) ∧
  (r = v1_sonnet →
     outboundApi req' = Some anthropic_chat ∧
     model_of req' = JStr "anthropic.claude-3-5-sonnet-20240620-v1:0").
Proof.
  assert (∀ i o q q',
            createPreprocessorMiddleware i o "aws" [maybeReassignModel] q
              = Ok q' →
            looks_native (model_of q') ∧ req_service q' = Some "aws" ∧
            outboundApi q' = Some o) as Hpre.
  { intros i o q q' H.
    destruct (reconciling_preprocessor i o "aws" q q' H) as (_ & Ho & Hn).
    repeat split; try done.
    unfold createPreprocessorMiddleware in H; simpl in H.
    by apply maybeReassignModel_cases in H as [[-> _]|(id & _ & ->)]. }
  destruct r; cbn [awsRouter].
  - unfold preprocessAwsTextRequest.
    destruct (js_includes_opt (model_of req) "claude-3") as [[[|]|]|];
      cbn [mbind result_bind default from_option id fmap result_fmap];
      unfold textToChatPreprocessor, nativeTextPreprocessor;
      match goal with
      | |- context [createPreprocessorMiddleware ?i ?o _ _ _] =>
          destruct (createPreprocessorMiddleware i o "aws"
                      [maybeReassignModel] req) as [q|] eqn:H; [|done];
          intros [= <-]; destruct (Hpre i o req q H) as (? & ? & ->)
      | _ => done
      end; repeat split; auto; done.
  - unfold nativeChatPreprocessor.
    destruct (createPreprocessorMiddleware anthropic_chat anthropic_chat "aws"
                [maybeReassignModel] req) as [q|] eqn:H; [|done].
    cbn [fmap result_fmap]. intros [= <-].
    destruct (Hpre _ _ req q H) as (? & ? & ->). repeat split; auto; done.
  - destruct (handleCompatibilityRequest errorType req) as [res|req1] eqn:H1;
      [done|].
    destruct (compatPreprocessor req1) as [q|] eqn:H2; [|done].
    cbn [fmap result_fmap]. intros [= <-].
    destruct (compat_route_model errorType req req1 q H1 H2) as [Hm Ho].
    repeat split; auto.
    + unfold looks_native. rewrite Hm. by vm_compute.
    + unfold compatPreprocessor, createPreprocessorMiddleware in H2.
      simpl in H2. by injection H2 as <-.
  - unfold preprocessOpenAICompatRequest.
    destruct (js_includes_opt (model_of req) "claude-3") as [[[|]|]|];
      cbn [mbind result_bind default from_option id fmap result_fmap];
      unfold oaiToAwsChatPreprocessor, oaiToAwsTextPreprocessor;
      match goal with
      | |- context [createPreprocessorMiddleware ?i ?o _ _ _] =>
          destruct (createPreprocessorMiddleware i o "aws"
                      [maybeReassignModel] req) as [q|] eqn:H; [|done];
          intros [= <-]; destruct (Hpre i o req q H) as (? & ? & ->)
      | _ => done
      end; repeat split; auto; done.
Qed.

Lemma proxied_request_is_native_witness :
  let req := inbound "r1" "complete"
               (<["model" := JStr "gpt-4"]> (<["prompt" := JStr "Hi"]> ∅)) in
  ∃ req', awsRouter "proxy_error" v1_sonnet req = Ok (Next req') ∧
    looks_native (model_of req') ∧
    outboundApi req' = Some anthropic_chat ∧
    model_of req' = JStr "anthropic.claude-3-5-sonnet-20240620-v1:0".
Proof.
  intros req.
  destruct (awsRouter "proxy_error" v1_sonnet req) as [[res|req']|e] eqn:H;
    [by vm_compute in H| |by vm_compute in H].
  exists req'. split; [done|].
  destruct (proxied_request_is_native "proxy_error" v1_sonnet req req' H)
    as (Hn & _ & _ & Hs).
  destruct (Hs eq_refl) as [Ho Hm]. by repeat split.
Defined.

End RouteProps.

(** ** The response handler *)

Module ResponseProps.
Import Aws AwsFacts.

Section Response.

Variable now : Z.
Variable v4 : string.
Variable trim : string → string.
Variables toOpenAI toText : obj → obj.

Abbreviation handler := (awsResponseHandler now v4 trim toOpenAI toText).




End Response.




End ResponseProps.

(** ** The model list *)

Module ModelListProps.
Import Aws.

Lemma listedIds_fill (clock : nat → Z) :
  listedIds (modelList (imap (λ i id, modelEntry id (clock (S i))) variants))
  = variants.
Proof. reflexivity. Qed.

(** X19: once the list has been computed it is served from the cache for
    the next minute: a call whose first clock reading is less than 60000
    ms after the time of the cache answers with status 200 and the very
    same body and leaves the cache alone, even when the credentials have
    been removed in the meantime. *)
Theorem cached_list_outlives_credentials awsCredentials clock1 later clock2 st :
  1000 * 60 ≤ clock1 0%nat - modelsCacheTime st →
  hasCredentials awsCredentials = true →
  clock2 0%nat - clock1 7%nat < 1000 * 60 →
  ∃ body st1,
    getModelsResponse awsCredentials clock1 st = (body, st1) ∧
    listedIds body = variants ∧
    modelsCacheTime st1 = clock1 7%nat ∧
    handleModelRequest later clock2 st1 = ((200, body), st1).
Proof.
  intros Hstale Hcred Hfresh. unfold handleModelRequest, getModelsResponse.
  assert ((clock1 0%nat - modelsCacheTime st <? 1000 * 60) = false) as ->
    by (apply Z.ltb_ge; lia).
  rewrite Hcred. cbn [negb]. eexists _, _. split; [reflexivity|].
  split; [apply listedIds_fill|]. split; [reflexivity|].
  cbn [modelsCacheTime modelsCache length variants].
  assert ((clock2 0%nat - clock1 7%nat <? 1000 * 60) = true) as ->
    by (apply Z.ltb_lt; lia).
  reflexivity.
Qed.

Lemma cached_list_outlives_credentials_witness :
  let clock1 : nat → Z := λ n, 1700000000000 + Z.of_nat n in
  let clock2 : nat → Z := λ n, 1700000030000 + Z.of_nat n in
  ∃ body st1,
    getModelsResponse (Some "key:secret:us-east-1") clock1 initialModelsCache
      = (body, st1) ∧
    listedIds body = variants ∧
    modelsCacheTime st1 = 1700000000007 ∧
    handleModelRequest None clock2 st1 = ((200, body), st1).
Proof.
  intros clock1 clock2.
  apply (cached_list_outlives_credentials (Some "key:secret:us-east-1")
           clock1 None clock2 initialModelsCache); by vm_compute.
Defined.

Lemma getModelsResponse_ok awsCredentials clock st body st' :
  cache_ok st →
  getModelsResponse awsCredentials clock st = (body, st') →
  body_ok body ∧ cache_ok st'.
Proof.
  unfold getModelsResponse. intros Hst.
  destruct (clock 0%nat - modelsCacheTime st <? 1000 * 60).
  - intros [= <- <-]. split; [|done]. destruct Hst as [->|H]; [by left|].
    right. by right.
  - destruct (hasCredentials awsCredentials); cbn [negb]; intros [= <- <-].
    + split; [right; right|right]; apply listedIds_fill.
    + split; [|done]. right. by left.
Qed.

(** X20: in any series of calls that starts when the module is loaded,
    every body returned is null, the empty list or the list of all six
    ids, and the cache never holds the empty list: it is null or holds all
    six ids.  The answer given without credentials is not remembered. *)
Theorem model_cache_never_holds_empty_list calls bodies st' :
  getModelsResponses calls initialModelsCache = (bodies, st') →
  (∀ body, body ∈ bodies →
     body = JNull ∨ body = modelList [] ∨ listedIds body = variants) ∧
  (modelsCache st' = JNull ∨ listedIds (modelsCache st') = variants).
Proof.
  assert (∀ st, cache_ok st →
            getModelsResponses calls st = (bodies, st') →
            (∀ body, body ∈ bodies → body_ok body) ∧ cache_ok st') as H.
  { revert bodies. induction calls as [|[cred clock] calls IH];
      intros bodies st Hst; cbn [getModelsResponses].
    - intros [= <- <-]. split; [|done]. intros body Hb.
      by apply elem_of_nil in Hb.
    - destruct (getModelsResponse cred clock st) as [body st1] eqn:H1.
      destruct (getModelsResponses calls st1) as [bodies' st2] eqn:H2.
      intros [= <- <-].
      destruct (getModelsResponse_ok _ _ _ _ _ Hst H1) as [Hb Hst1].
      destruct (IH bodies' st1 Hst1 H2) as [Hbs Hst2].
      split; [|done]. intros b Hin.
      apply elem_of_cons in Hin as [->|Hin]; [done|by apply Hbs]. }
  apply H. by left.
Qed.

Lemma model_cache_never_holds_empty_list_witness :
  let clock1 : nat → Z := λ n, 1700000000000 + Z.of_nat n in
  let clock2 : nat → Z := λ n, 1700000090000 + Z.of_nat n in
  ∃ full st',
    getModelsResponses [(None, clock1); (Some "key", clock2)] initialModelsCache
      = ([modelList []; full], st') ∧
    listedIds full = variants ∧
    (modelsCache st' = JNull ∨ listedIds (modelsCache st') = variants).
Proof.
  intros clock1 clock2.
  destruct (getModelsResponses [(None, clock1); (Some "key", clock2)]
              initialModelsCache) as [bodies st'] eqn:H.
  destruct (model_cache_never_holds_empty_list _ _ _ H) as [_ Hst].
  vm_compute in H. injection H as <- <-.
  eexists _, _. split; [reflexivity|]. split; [by vm_compute|exact Hst].
Defined.

End ModelListProps.

(** ** More on the PaLM key serializer *)

Module SerializerProps.
Import Palm PalmFacts.

Section Props.

Variable sha256_hex : string → string.

Lemma deserialize_Ok_key serializedKey o :
  deserialize sha256_hex serializedKey = Ok o →
  ∃ k, serializedKey !! "key" = Some (JStr k).
Proof.
  unfold deserialize, get.
  destruct (serializedKey !! "key") as [[| | | |k| |]|]; try done.
  intros _. by exists k.
Qed.

(** X21: [deserialize] returns if and only if the record has a key that is
    a string; a record without a key, or with a key of another type, ends
    the call with a TypeError and gives no credential. *)
Theorem deserialize_needs_string_key serializedKey :
  ((∃ o, deserialize sha256_hex serializedKey = Ok o) ↔
   (∃ k, serializedKey !! "key" = Some (JStr k))) ∧
  ((∀ k, serializedKey !! "key" ≠ Some (JStr k)) →
   deserialize sha256_hex serializedKey = Throw TypeError).
Proof.
  unfold deserialize, get.
  destruct (serializedKey !! "key") as [[| | | |k| |]|]; cbn [default from_option];
    cbv [Datatypes.id].
  5: { split; [split; intros _; by eexists|]. intros H. by destruct (H k). }
  all: split; [|done]; split; [by intros [? ?]|by intros [? ?]].
Qed.

Lemma lookup_defaults_defined k f :
  f ∈ persisted_fields →
  ∃ v, defaults sha256_hex k !! f = Some v ∧ is_nullish v = false.
Proof.
  unfold persisted_fields. intros Hf.
  repeat (apply elem_of_cons in Hf as [->|Hf]; [by eexists|]).
  by apply elem_of_nil in Hf.
Qed.

(** X22: for a record with a string key, none of whose properties is
    undefined or null, the credential that [deserialize] returns has a
    value that is neither undefined nor null for every one of the twelve
    fields of a PaLM credential, and its key is the key of the record.  (A
    property that the record holds as null or undefined is kept as it is,
    so the condition on the record is needed.) *)
Theorem deserialize_fields_defined serializedKey k o :
  serializedKey !! "key" = Some (JStr k) →
  (∀ f v, serializedKey !! f = Some v → is_nullish v = false) →
  deserialize sha256_hex serializedKey = Ok o →
  o !! "key" = Some (JStr k) ∧
  ∀ f, f ∈ persisted_fields → ∃ v, o !! f = Some v ∧ is_nullish v = false.
Proof.
  intros Hk Hdef Hd.
  pose proof (λ f, lookup_deserialize sha256_hex serializedKey k o f Hk Hd) as Hl.
  split; [by rewrite Hl, Hk|].
  intros f Hf. rewrite Hl. destruct (serializedKey !! f) as [v|] eqn:Hv.
  - exists v. split; [done|]. by apply (Hdef f).
  - by apply lookup_defaults_defined.
Qed.

(** X23: [deserialize] gives back a complete credential unchanged: had the
    record held all twelve fields, reading it would lose nothing. *)
Theorem deserialize_complete_key (k : GooglePalmKey) :
  deserialize sha256_hex (to_obj k) = Ok (to_obj k).
Proof.
  unfold deserialize.
  assert (get (to_obj k) "key" = JStr (key k)) as -> by reflexivity.
  reflexivity.
Qed.

(** X24: reading is idempotent: the credential that [deserialize] returns
    is read back as itself. *)
Theorem deserialize_idempotent serializedKey o :
  deserialize sha256_hex serializedKey = Ok o →
  deserialize sha256_hex o = Ok o.
Proof.
  intros Hd.
  destruct (deserialize_Ok_key serializedKey o Hd) as [k Hk].
  pose proof (λ f, lookup_deserialize sha256_hex serializedKey k o f Hk Hd) as Hl.
  assert (o !! "key" = Some (JStr k)) as Hok by (by rewrite Hl, Hk).
  unfold deserialize, get. rewrite Hok. cbn [default from_option].
  cbv [Datatypes.id]. f_equal. apply map_eq. intros f.
  rewrite lookup_union. destruct (decide (f = "key")) as [->|Hf].
  - rewrite lookup_delete_eq, Hok. reflexivity.
  - rewrite lookup_delete_ne by done. rewrite Hl.
    destruct (serializedKey !! f); [|by destruct (defaults sha256_hex k !! f)].
    by destruct (defaults sha256_hex k !! f).
Qed.

(** X25: writing a credential that was read from a record gives the record
    reduced to its key: [serialize] after [deserialize] keeps the key and
    drops everything else the record held. *)
Theorem serialize_deserialize serializedKey k o :
  serializedKey !! "key" = Some (JStr k) →
  deserialize sha256_hex serializedKey = Ok o →
  serialize o = {[ "key" := JStr k ]} ∧
  (serialize o = serializedKey ↔ ∀ f, f ≠ "key" → serializedKey !! f = None).
Proof.
  intros Hk Hd.
  pose proof (λ f, lookup_deserialize sha256_hex serializedKey k o f Hk Hd) as Hl.
  assert (serialize o = {[ "key" := JStr k ]}) as Hs.
  { unfold serialize, get. by rewrite Hl, Hk. }
  split; [done|]. rewrite Hs. split.
  - intros <- f Hf. by rewrite lookup_singleton_ne.
  - intros Hnone. apply map_eq. intros f.
    destruct (decide (f = "key")) as [->|Hf].
    + by rewrite lookup_singleton_eq.
    + rewrite lookup_singleton_ne by done. by rewrite Hnone.
Qed.

End Props.

Lemma deserialize_fields_defined_witness :
  let digest : string → string := λ _, "2c26b46b68ffc68ff99b453c1d304134" in
  let record : obj := <["key" := JStr "AIza-secret"]> (<["note" := JStr "x"]> ∅) in
  ∃ o, deserialize digest record = Ok o ∧
       o !! "key" = Some (JStr "AIza-secret") ∧
       ∃ v, o !! "lastChecked" = Some v ∧ is_nullish v = false.
Proof.
  intros digest record.
  destruct (deserialize digest record) as [o|e] eqn:Hd; [|by vm_compute in Hd].
  exists o. split; [done|].
  destruct (deserialize_fields_defined digest record "AIza-secret" o eq_refl)
    as [Hk Hall]; [|exact Hd|].
  - intros f v. unfold record.
    rewrite lookup_insert. case_decide; [by intros [= <-]|].
    rewrite lookup_insert. case_decide; [by intros [= <-]|].
    by rewrite lookup_empty.
  - split; [exact Hk|]. apply Hall. unfold persisted_fields. repeat constructor.
Defined.

Lemma deserialize_idempotent_witness :
  let digest : string → string := λ _, "2c26b46b68ffc68ff99b453c1d304134" in
  let record : obj := <["key" := JStr "AIza-secret"]> (<["promptCount" := JNum 3]> ∅) in
  ∃ o, deserialize digest record = Ok o ∧ deserialize digest o = Ok o.
Proof.
  intros digest record.
  destruct (deserialize digest record) as [o|e] eqn:Hd; [|by vm_compute in Hd].
  exists o. split; [done|].
  exact (deserialize_idempotent digest record o Hd).
Defined.

Lemma serialize_deserialize_witness :
  let digest : string → string := λ _, "2c26b46b68ffc68ff99b453c1d304134" in
  let record : obj := <["key" := JStr "AIza-secret"]> (<["promptCount" := JNum 3]> ∅) in
  ∃ o, deserialize digest record = Ok o ∧
       serialize o = {[ "key" := JStr "AIza-secret" ]}.
Proof.
  intros digest record.
  destruct (deserialize digest record) as [o|e] eqn:Hd; [|by vm_compute in Hd].
  exists o. split; [done|].
  exact (proj1 (serialize_deserialize digest record "AIza-secret" o eq_refl Hd)).
Defined.

End SerializerProps.
